(** * Instagram Analyzer: the metrics endpoint and the page controller

    A shallow embedding of the two source files that carry logic:

    - the route handler ([analyzeInstagramAccount], [POST]), module [Route];
    - the page component's state and handlers ([addHandleInput],
      [removeHandleInput], [updateHandle], [analyzeAccounts], [sortData],
      [getSortedResults], [exportToCSV], [exportToExcel], [formatNumber]),
      module [Page].

    The modules [MetricSpec], [HandlerSpec], [SortSpec], [RowSpec] and
    [NameSpec] hold what the specification says, in its own words, for the
    theorems to compare the code with.

    Conventions.  A JavaScript string is a sequence of UTF-16 code units;
    here it is a Stdlib [string], one [ascii] per code unit, so the model
    covers the strings whose code units are below 256.  JavaScript numbers
    are binary64: those that are integers by construction (character sums,
    followers, views) are kept as [Z], exact because they stay far below
    2^53; the fractional ones are primitive floats, computed with the
    IEEE operations themselves.  What lies outside the two files is an
    input of the model: the outcome of the outbound page fetch
    ([Route.page]), the outcome of each request of the page
    ([Page.outcome]), the serializer [Papa.unparse] and the clock. *)

From Stdlib Require Import ZArith QArith Qround Qpower List Bool Lia.
From Stdlib Require Import Ascii String DecimalString.
From Stdlib Require Import Sorted Permutation.
From Stdlib Require Import Floats.
From stdpp Require Import base list.

Import ListNotations.
Set Warnings "-inexact-float,-register-all".
Local Open Scope string_scope.
Local Open Scope Z_scope.

(** ** JavaScript built-ins used by the two files *)

Module Js.

(** [c.charCodeAt(0)] for a one-unit string [c]. *)
Definition charCodeAt0 (c : ascii) : Z := Z.of_N (N_of_ascii c).

(** [s.split('')]: the code units of [s], one per element. *)
Definition split_chars (s : string) : list ascii := list_ascii_of_string s.

(** [s.charAt(i)]: the unit at [i] as a string, [""] past the end. *)
Definition charAt (i : nat) (s : string) : string :=
  match String.get i s with
  | Some c => String c ""
  | None => ""
  end.

(** [s.slice(i)] and [s.slice(i, j)] for literal indices [0 <= i], [0 <= j]. *)
Definition slice_from (i : nat) (s : string) : string :=
  substring i (String.length s - i) s.

Definition slice (i j : nat) (s : string) : string :=
  substring i (j - i) s.

Definition in_range (lo hi : N) (c : ascii) : bool :=
  ((lo <=? N_of_ascii c) && (N_of_ascii c <=? hi))%N.

(** [toUpperCase], unit by unit.  Only the letters a-z are mapped: the
    endpoint calls it on handles that already passed the format test, and
    those hold ASCII only. *)
Definition upper_char (c : ascii) : ascii :=
  if in_range 97 122 c then ascii_of_N (N_of_ascii c - 32) else c.

Fixpoint toUpperCase (s : string) : string :=
  match s with
  | EmptyString => EmptyString
  | String c s' => String (upper_char c) (toUpperCase s')
  end.

(** [toLowerCase], unit by unit: A-Z, and the Latin-1 capitals U+00C0 to
    U+00DE except the multiplication sign U+00D7. *)
Definition lower_char (c : ascii) : ascii :=
  if in_range 65 90 c
     || (in_range 192 222 c && negb (N_of_ascii c =? 215)%N)
  then ascii_of_N (N_of_ascii c + 32) else c.

Fixpoint toLowerCase (s : string) : string :=
  match s with
  | EmptyString => EmptyString
  | String c s' => String (lower_char c) (toLowerCase s')
  end.

(** [s.split(/[._]/)]: the pieces between separators, empty pieces kept. *)
Definition is_dot_or_underscore (c : ascii) : bool :=
  (c =? ".")%char || (c =? "_")%char.

Fixpoint split_dot_underscore (s : string) : list string :=
  match s with
  | EmptyString => [EmptyString]
  | String c s' =>
      if is_dot_or_underscore c then EmptyString :: split_dot_underscore s'
      else match split_dot_underscore s' with
           | p :: ps => String c p :: ps
           | [] => [String c EmptyString]
           end
  end.

(** [parts.join(sep)]. *)
Definition join (sep : string) (parts : list string) : string :=
  String.concat sep parts.

(** [s.replace('@', '')]: a string pattern replaces its first occurrence
    only, wherever it is. *)
Fixpoint replace_at (s : string) : string :=
  match s with
  | EmptyString => EmptyString
  | String c s' => if (c =? "@")%char then s' else String c (replace_at s')
  end.

(** White space and line terminators that [trim] removes, among the code
    units below 256: TAB, LF, VT, FF, CR, SP and NBSP. *)
Definition is_space (c : ascii) : bool :=
  in_range 9 13 c || (N_of_ascii c =? 32)%N || (N_of_ascii c =? 160)%N.

Fixpoint trimStart (s : string) : string :=
  match s with
  | EmptyString => EmptyString
  | String c s' => if is_space c then trimStart s' else s
  end.

Fixpoint trimEnd (s : string) : string :=
  match s with
  | EmptyString => EmptyString
  | String c s' =>
      match trimEnd s' with
      | EmptyString => if is_space c then EmptyString else String c EmptyString
      | t => String c t
      end
  end.

Definition trim (s : string) : string := trimEnd (trimStart s).

(** The character class [[a-zA-Z0-9._]]. *)
Definition handle_char (c : ascii) : bool :=
  in_range 97 122 c || in_range 65 90 c || in_range 48 57 c
  || (c =? ".")%char || (c =? "_")%char.

Fixpoint all_chars (p : ascii -> bool) (s : string) : bool :=
  match s with
  | EmptyString => true
  | String c s' => p c && all_chars p s'
  end.

(** [/^[a-zA-Z0-9._]+$/.test(s)]: one unit or more, all in the class. *)
Definition test_handle_re (s : string) : bool :=
  match s with
  | EmptyString => false
  | _ => all_chars handle_char s
  end.

(** The double of an integer [|z| < 2^63]; exact when [|z| < 2^53]. *)
Definition num (z : Z) : float :=
  if z <? 0 then (- PrimFloat.of_uint63 (Uint63.of_Z (- z)))%float
  else PrimFloat.of_uint63 (Uint63.of_Z z).

(** A finite non-zero double is [m * 2^e], up to sign.  Its magnitude
    rounded down, and rounded up, to an integer. *)
Definition floor_pos (m : positive) (e : Z) : Z :=
  match e with
  | Z0 => Zpos m
  | Zpos p => Z.shiftl (Zpos m) (Zpos p)
  | Zneg p => Z.shiftr (Zpos m) (Zpos p)
  end.

Definition ceil_pos (m : positive) (e : Z) : Z :=
  match e with
  | Zneg p => Z.shiftr (Zpos m + Z.ones (Zpos p)) (Zpos p)
  | _ => floor_pos m e
  end.

(** [Math.floor(x)] as an integer.  On NaN and the infinities, where
    JavaScript returns the argument, the model returns 0; the endpoint
    only floors a finite product. *)
Definition Math_floor (x : float) : Z :=
  match Prim2SF x with
  | S754_finite false m e => floor_pos m e
  | S754_finite true m e => - ceil_pos m e
  | _ => 0
  end.

(** The digits [x.toFixed(2)] prints: the integer [n] for which [n / 100]
    is nearest to [x], the one of larger magnitude on a tie; the text is
    [n] with a point before its last two digits. *)
Definition toFixed2_digits (m : positive) (e : Z) : Z :=
  match e with
  | Zneg p => Z.shiftr (Zpos m * 200 + 2 ^ Zpos p) (Zpos p + 1)
  | _ => floor_pos m e * 100
  end.

(** [parseFloat(x.toFixed(2))].  [parseFloat] reads the double nearest to
    the printed decimal [n / 100]; [n] and 100 are exact doubles, so that
    is their correctly rounded quotient.  NaN and the infinities print as
    words and read back as themselves. *)
Definition parseFloat_toFixed2 (x : float) : float :=
  match Prim2SF x with
  | S754_finite s m e =>
      let n := toFixed2_digits m e in
      (num (if s then - n else n) / 100)%float
  | S754_zero _ => 0%float
  | _ => x
  end.

(** [n.toString()] for an integer [n]. *)
Definition decimal (n : Z) : string := NilZero.string_of_int (Z.to_int n).

(** The digits [x.toFixed(1)] prints for the magnitude [m * 2^e]: the
    integer nearest to ten times it, the larger one on a tie. *)
Definition toFixed1_digits (m : positive) (e : Z) : Z :=
  match e with
  | Zneg p => Z.shiftr (Zpos m * 20 + 2 ^ Zpos p) (Zpos p + 1)
  | _ => floor_pos m e * 10
  end.

(** [x.toFixed(1)], for [x] below 10^21 in magnitude (beyond, JavaScript
    switches to the exponent form, which the page never reaches). *)
Definition toFixed1 (x : float) : string :=
  match Prim2SF x with
  | S754_finite s m e =>
      let n := toFixed1_digits m e in
      (if s then "-" else "") ++ decimal (n / 10) ++ "." ++ decimal (n mod 10)
  | S754_zero _ => "0.0"
  | S754_infinity s => if s then "-Infinity" else "Infinity"
  | S754_nan => "NaN"
  end.

End Js.

(** ** The metrics endpoint *)

Module Route.

Record InstagramData := {
  handle : string;
  name : string;
  followers : Z;
  averageViews : Z;
  category : string;
  engagementRate : float;
  location : string
}.

Definition categories : list string :=
  [ "Influencer"; "Brand"; "Artist"; "Content Creator"; "Business";
    "Personal"; "Celebrity"; "Photographer"; "Fashion"; "Food & Beverage";
    "Travel"; "Fitness"; "Technology"; "Education"; "Entertainment" ].

(** The twelfth entry is written with the two units U+00C3 U+00A3 after
    its first letter, as the source file has it. *)
Definition locations : list string :=
  [ "Los Angeles, CA"; "New York, NY"; "Miami, FL"; "London, UK";
    "Paris, France"; "Tokyo, Japan"; "Dubai, UAE"; "Sydney, Australia";
    "Toronto, Canada"; "Berlin, Germany"; "Singapore";
    String "S" (String "195" (String "163" "o Paulo, Brazil"));
    "Mumbai, India"; "Seoul, South Korea"; "Mexico City, Mexico";
    "Not specified" ].

(** [handle.split('').reduce((acc, char) => acc + char.charCodeAt(0), 0)] *)
Definition hash_of (handle : string) : Z :=
  fold_left (fun acc char => acc + Js.charCodeAt0 char) (Js.split_chars handle) 0.

(** [xs[i]] for a string array; [undefined] past the end is [""] here,
    and no index below reaches it. *)
Definition at_index (xs : list string) (i : Z) : string :=
  nth (Z.to_nat i) xs "".

Definition capitalize (s : string) : string :=
  Js.toUpperCase (Js.charAt 0 s) ++ Js.slice_from 1 s.

Definition nameVariants (handle : string) : list string :=
  [ capitalize handle;
    Js.toUpperCase handle;
    Js.join " " (map capitalize (Js.split_dot_underscore handle));
    (Js.toUpperCase (Js.charAt 0 handle) ++ Js.slice 1 4 handle)
      ++ " " ++ (Js.toUpperCase (Js.charAt 4 handle) ++ Js.slice_from 5 handle) ].

(** What the outbound request for the profile page comes to: it fails
    (network error, timeout, refused), or a page arrives, and [ldName] is
    the [name] of its embedded ld+json object when the script is there,
    parses, and has a truthy [name]. *)
Inductive page :=
| FetchFailed
| Fetched (ldName : option string).

Definition enrichment (p : page) : option string :=
  match p with
  | FetchFailed => None
  | Fetched n => n
  end.

(** What the handler does to the outside world. *)
Inductive effect :=
| HttpGet (url : string)
| ConsoleLog (message : string)
| ConsoleError (message : string).

(** The [%] of JavaScript truncates, as [Z.rem] does.  [Math.floor] of the
    integer [1000 + ...] is that integer. *)
Definition followers_of (hash : Z) : Z := 1000 + Z.rem (hash * 157) 500000.

Definition averageViews_of (hash : Z) : Z :=
  Js.Math_floor (Js.num (followers_of hash) * (0.3 + Js.num (Z.rem hash 10) / 20))%float.

Definition engagementRate_of (hash : Z) : float :=
  Js.parseFloat_toFixed2 (1.5 + Js.num (Z.rem hash 50) / 10)%float.

Definition analyzeInstagramAccount (world : page) (handle : string)
  : InstagramData * list effect :=
  let url := "https://www.instagram.com/" ++ handle ++ "/" in
  let hash := hash_of handle in
  let followers := followers_of hash in
  let averageViews := averageViews_of hash in
  let engagementRate := engagementRate_of hash in
  let category := at_index categories (Z.rem hash (Z.of_nat (length categories))) in
  let location := at_index locations (Z.rem hash (Z.of_nat (length locations))) in
  let name := at_index (nameVariants handle) (Z.rem hash (Z.of_nat (length (nameVariants handle)))) in
  let generated := Build_InstagramData handle name followers averageViews
                     category engagementRate location in
  match world with
  | Fetched (Some ldName) =>
      (Build_InstagramData handle ldName followers averageViews
         category engagementRate location, [HttpGet url])
  | Fetched None => (generated, [HttpGet url])
  | FetchFailed =>
      (generated,
       [HttpGet url;
        ConsoleLog ("Could not fetch data for " ++ handle ++ ", using generated data")])
  end.

(** A parsed JSON text. *)
Inductive json :=
| JNull
| JBool (b : bool)
| JNumber (x : float)
| JString (s : string)
| JArray (items : list json)
| JObject (members : list (string * json)).

(** [v.handle] for a parsed value: the last member of that name in an
    object, [undefined] ([None]) in anything else that has properties. *)
Fixpoint member (key : string) (members : list (string * json)) : option json :=
  match members with
  | [] => None
  | (k, v) :: rest =>
      match member key rest with
      | Some later => Some later
      | None => if String.eqb k key then Some v else None
      end
  end.

Definition handle_property (v : json) : option json :=
  match v with
  | JObject members => member "handle" members
  | _ => None
  end.

Inductive responseBody :=
| ErrorBody (error : string)
| DataBody (data : InstagramData).

Record response := { status : Z; body : responseBody }.

Definition cleanHandle (handle : string) : string :=
  Js.trim (Js.replace_at handle).

Definition internal_error : response * list effect :=
  ({| status := 500; body := ErrorBody "Failed to analyze account. Please try again." |},
   [ConsoleError "Error analyzing account:"]).

(** [POST(request)].  [requestBody] is what [request.json()] yields:
    [None] when it rejects (the body is not JSON).  Destructuring
    [{ handle }] out of [null] throws, and the outer [catch] answers 500. *)
Definition POST (world : page) (requestBody : option json)
  : response * list effect :=
  match requestBody with
  | None => internal_error
  | Some JNull => internal_error
  | Some parsed =>
      match handle_property parsed with
      | Some (JString (String c rest)) =>
          let cleanHandle := cleanHandle (String c rest) in
          if (String.length cleanHandle =? 0)%nat then
            ({| status := 400; body := ErrorBody "Handle cannot be empty" |}, [])
          else if negb (Js.test_handle_re cleanHandle) then
            ({| status := 400; body := ErrorBody "Invalid handle format" |}, [])
          else
            let (data, effects) := analyzeInstagramAccount world cleanHandle in
            ({| status := 200; body := DataBody data |}, effects)
      | _ =>
          (* !handle || typeof handle !== 'string' *)
          ({| status := 400; body := ErrorBody "Invalid handle provided" |}, [])
      end
  end.

End Route.

(** ** The page controller *)

Module Page.

(** ['loading' | 'success' | 'error'] *)
Inductive statusTag := StatusLoading | StatusSuccess | StatusError.

Record InstagramData := {
  handle : string;
  name : string;
  followers : Z;
  averageViews : Z;
  category : string;
  engagementRate : float;
  location : string;
  status : option statusTag;
  error : option string
}.

Inductive direction := Asc | Desc.

(** [keyof InstagramData] *)
Inductive key :=
| Khandle | Kname | Kfollowers | KaverageViews | Kcategory
| KengagementRate | Klocation | Kstatus | Kerror.

(** The four [useState] cells of [Home]. *)
Record state := {
  handles : list string;
  results : list InstagramData;
  loading : bool;
  sortConfig : option (key * direction)
}.

Definition initial : state :=
  {| handles := [""]; results := []; loading := false; sortConfig := None |}.

Definition setHandles (v : list string) (st : state) : state :=
  {| handles := v; results := results st; loading := loading st;
     sortConfig := sortConfig st |}.

Definition setResults (v : list InstagramData) (st : state) : state :=
  {| handles := handles st; results := v; loading := loading st;
     sortConfig := sortConfig st |}.

Definition setLoading (v : bool) (st : state) : state :=
  {| handles := handles st; results := results st; loading := v;
     sortConfig := sortConfig st |}.

Definition setSortConfig (v : option (key * direction)) (st : state) : state :=
  {| handles := handles st; results := results st; loading := loading st;
     sortConfig := v |}.

(** [xs.filter((x, i) => p(x, i))], the index counted from [i]. *)
Fixpoint filter_indexed {A : Type} (p : A -> nat -> bool) (i : nat) (xs : list A)
  : list A :=
  match xs with
  | [] => []
  | x :: rest =>
      if p x i then x :: filter_indexed p (S i) rest
      else filter_indexed p (S i) rest
  end.

Definition addHandleInput (st : state) : state :=
  setHandles (handles st ++ [""]) st.

Definition removeHandleInput (index : nat) (st : state) : state :=
  let newHandles :=
    filter_indexed (fun _ i => negb (i =? index)%nat) 0 (handles st) in
  setHandles (if (length newHandles =? 0)%nat then [""] else newHandles) st.

(** [newHandles[index] = v] on a copy of the array.  Every caller passes the
    index of a rendered input, below the length.  At the length JavaScript
    appends; further out it leaves holes, which a list of strings cannot
    hold, and there the model keeps the list as it is. *)
Definition assign_index (index : nat) (v : string) (xs : list string)
  : list string :=
  if (index =? length xs)%nat then xs ++ [v] else <[index := v]> xs.

Definition updateHandle (index : nat) (value : string) (st : state) : state :=
  let newHandles := handles st in
  setHandles (assign_index index (Js.trim (Js.replace_at value)) newHandles) st.

(** What one [fetch('/api/analyze')] and [response.json()] come to. *)
Inductive outcome :=
| Ok (data : Route.InstagramData)   (* response.ok, the body a metrics record *)
| NotOk (error : option string)     (* not ok; [data.error] when the body has one *)
| Threw.                            (* fetch rejected, or the body did not parse *)

Definition successRow (data : Route.InstagramData) : InstagramData :=
  {| handle := Route.handle data; name := Route.name data;
     followers := Route.followers data; averageViews := Route.averageViews data;
     category := Route.category data; engagementRate := Route.engagementRate data;
     location := Route.location data;
     status := Some StatusSuccess; error := None |}.

Definition errorRow (handle : string) (message : string) : InstagramData :=
  {| handle := handle; name := "N/A"; followers := 0; averageViews := 0;
     category := "N/A"; engagementRate := 0%float; location := "N/A";
     status := Some StatusError; error := Some message |}.

(** [data.error || 'Failed to fetch data']: the empty string is falsy. *)
Definition error_or_default (e : option string) : string :=
  match e with
  | Some (String c rest) => String c rest
  | _ => "Failed to fetch data"
  end.

Definition rowOf (handle : string) (o : outcome) : InstagramData :=
  match o with
  | Ok data => successRow data
  | NotOk e => errorRow handle (error_or_default e)
  | Threw => errorRow handle "Network error"
  end.

(** The [for ... of] loop: request number [i] is sent for the head of
    [validHandles] and its row pushed on [newResults] before the next one
    is sent.  [net i handle] is what request [i] comes to. *)
Fixpoint analyzeLoop (net : nat -> string -> outcome) (i : nat)
  (validHandles : list string) (newResults : list InstagramData)
  : list InstagramData :=
  match validHandles with
  | [] => newResults
  | handle :: rest =>
      analyzeLoop net (S i) rest (newResults ++ [rowOf handle (net i handle)])
  end.

Definition validHandlesOf (st : state) : list string :=
  List.filter (fun h => negb (Js.trim h =? "")%string) (handles st).

(** The state while the requests are in flight. *)
Definition analyzeAccounts_pending (st : state) : state :=
  if (length (validHandlesOf st) =? 0)%nat then st else setLoading true st.

(** The state when [analyzeAccounts] has run to its end. *)
Definition analyzeAccounts (net : nat -> string -> outcome) (st : state) : state :=
  let validHandles := validHandlesOf st in
  if (length validHandles =? 0)%nat then st
  else
    let newResults := analyzeLoop net 0 validHandles [] in
    setLoading false (setResults newResults (setLoading true st)).

Definition key_eqb (a b : key) : bool :=
  match a, b with
  | Khandle, Khandle | Kname, Kname | Kfollowers, Kfollowers
  | KaverageViews, KaverageViews | Kcategory, Kcategory
  | KengagementRate, KengagementRate | Klocation, Klocation
  | Kstatus, Kstatus | Kerror, Kerror => true
  | _, _ => false
  end.

Definition sortData (k : key) (st : state) : state :=
  let direction :=
    match sortConfig st with
    | Some (k', Asc) => if key_eqb k' k then Desc else Asc
    | _ => Asc
    end in
  setSortConfig (Some (k, direction)) st.

(** The sign of the number a comparator returns, which is all that [sort]
    reads of it; NaN counts as zero. *)
Definition sign_of_double (d : float) : comparison :=
  if (d <? 0)%float then Lt else if (0 <? d)%float then Gt else Eq.

(** [direction === 'asc' ? aVal - bVal : bVal - aVal] *)
Definition byInteger (d : direction) (aVal bVal : Z) : comparison :=
  match d with
  | Asc => Z.compare (aVal - bVal) 0
  | Desc => Z.compare (bVal - aVal) 0
  end.

Definition byDouble (d : direction) (aVal bVal : float) : comparison :=
  match d with
  | Asc => sign_of_double (aVal - bVal)%float
  | Desc => sign_of_double (bVal - aVal)%float
  end.

(** The string branch: lower-cased, then compared unit by unit. *)
Definition byString (d : direction) (aVal bVal : string) : comparison :=
  let aStr := Js.toLowerCase aVal in
  let bStr := Js.toLowerCase bVal in
  if String.ltb aStr bStr then match d with Asc => Lt | Desc => Gt end
  else if String.ltb bStr aStr then match d with Asc => Gt | Desc => Lt end
  else Eq.

(** [String(v)] for the two optional fields. *)
Definition String_status (v : option statusTag) : string :=
  match v with
  | Some StatusLoading => "loading"
  | Some StatusSuccess => "success"
  | Some StatusError => "error"
  | None => "undefined"
  end.

Definition String_error (v : option string) : string :=
  match v with
  | Some s => s
  | None => "undefined"
  end.

(** The comparator handed to [sort].  The test
    [typeof aVal === 'number' && typeof bVal === 'number'] is settled by the
    key: [followers], [averageViews] and [engagementRate] hold a number in
    every row, the other fields never do. *)
Definition compareRows (k : key) (d : direction) (a b : InstagramData)
  : comparison :=
  match k with
  | Kfollowers => byInteger d (followers a) (followers b)
  | KaverageViews => byInteger d (averageViews a) (averageViews b)
  | KengagementRate => byDouble d (engagementRate a) (engagementRate b)
  | Khandle => byString d (handle a) (handle b)
  | Kname => byString d (name a) (name b)
  | Kcategory => byString d (category a) (category b)
  | Klocation => byString d (location a) (location b)
  | Kstatus => byString d (String_status (status a)) (String_status (status b))
  | Kerror => byString d (String_error (error a)) (String_error (error b))
  end.

(** [Array.prototype.sort(compare)].  ECMAScript requires a stable sort and
    fixes the result for a consistent comparator; the engine's own algorithm
    is not part of the repository.  The model inserts each element, from the
    last to the first, in front of the first element it does not come
    after. *)
Fixpoint sort_insert {A : Type} (compare : A -> A -> comparison) (x : A)
  (sorted : list A) : list A :=
  match sorted with
  | [] => [x]
  | y :: rest =>
      match compare x y with
      | Gt => y :: sort_insert compare x rest
      | _ => x :: sorted
      end
  end.

Definition Array_sort {A : Type} (compare : A -> A -> comparison) (xs : list A)
  : list A :=
  fold_right (sort_insert compare) [] xs.

Definition getSortedResults (st : state) : list InstagramData :=
  match sortConfig st with
  | None => results st
  | Some (k, d) => Array_sort (compareRows k d) (results st)
  end.

(** A value of an exported row. *)
Inductive cell :=
| TextCell (s : string)
| IntegerCell (z : Z)
| DoubleCell (x : float).

(** The object built for each row, its keys in the order written. *)
Definition exportRow (r : InstagramData) : list (string * cell) :=
  [ ("Handle", TextCell (handle r));
    ("Name", TextCell (name r));
    ("Followers", IntegerCell (followers r));
    ("Average Views", IntegerCell (averageViews r));
    ("Category", TextCell (category r));
    ("Engagement Rate (%)", DoubleCell (engagementRate r));
    ("Location", TextCell (location r)) ].

(** [iso.split('T')[0]] *)
Fixpoint before_T (iso : string) : string :=
  match iso with
  | EmptyString => EmptyString
  | String c rest => if (c =? "T")%char then EmptyString else String c (before_T rest)
  end.

(** The file handed to the browser. *)
Record download := {
  content : string;
  mime : string;
  filename : string
}.

Section Downloads.

(** [Papa.unparse], of the papaparse package: not part of the repository. *)
Variable unparse : list (list (string * cell)) -> string.

(** [now] is [new Date().toISOString()]. *)
Definition exportToCSV (now : string) (st : state) : download :=
  let csvData := map exportRow (results st) in
  let csv := unparse csvData in
  {| content := csv; mime := "text/csv";
     filename := "instagram-analysis-" ++ before_T now ++ ".csv" |}.

Definition exportToExcel (now : string) (st : state) : download :=
  let data := map exportRow (results st) in
  let csv := unparse data in
  {| content := csv; mime := "application/vnd.ms-excel";
     filename := "instagram-analysis-" ++ before_T now ++ ".xlsx" |}.

End Downloads.

(** What the render shows or hides. *)
Definition removeButtonShown (st : state) : bool := (1 <? length (handles st))%nat.

Definition analyzeDisabled (st : state) : bool :=
  loading st || forallb (fun h => (Js.trim h =? "")%string) (handles st).

(** The page's reading of a response of the route handler: status 200 is
    [response.ok] and its body the record, any other status carries an
    [error] member.  The handler produces no other combination. *)
Definition outcomeOf (r : Route.response) : option outcome :=
  match Route.body r with
  | Route.DataBody data =>
      if (200 <=? Route.status r) && (Route.status r <=? 299) then Some (Ok data) else None
  | Route.ErrorBody e =>
      if (200 <=? Route.status r) && (Route.status r <=? 299) then None
      else Some (NotOk (Some e))
  end.

(** The body [JSON.stringify({ handle })] as the handler parses it. *)
Definition requestFor (handle : string) : option Route.json :=
  Some (Route.JObject [("handle", Route.JString handle)]).

(** The network as the route handler: request [i] meets the outside world
    [worlds i].  The fallback is never taken (no answer of the handler is
    unreadable). *)
Definition viaRoute (worlds : nat -> Route.page) (i : nat) (handle : string)
  : outcome :=
  match outcomeOf (fst (Route.POST (worlds i) (requestFor handle))) with
  | Some o => o
  | None => Threw
  end.

(** [formatNumber(num)] for an integer [num]. *)
Definition formatNumber (num : Z) : string :=
  if 1000000 <=? num then Js.toFixed1 (Js.num num / 1000000)%float ++ "M"
  else if 1000 <=? num then Js.toFixed1 (Js.num num / 1000)%float ++ "K"
  else Js.decimal num.





End Page.
(** ** The derivation as the specification words it *)

Module MetricSpec.

(** The sum of the character codes of a handle. *)
Fixpoint code_sum (h : string) : Z :=
  match h with
  | EmptyString => 0
  | String c rest => Js.charCodeAt0 c + code_sum rest
  end.

(** followers = 1000 + (hash x 157) mod 500000 *)
Definition followers (hash : Z) : Z := 1000 + (hash * 157) mod 500000.

(** averageViews = floor(followers x (0.3 + (hash mod 10)/20)), over the
    rationals. *)
Definition averageViews (hash : Z) : Z :=
  Qfloor (inject_Z (followers hash)
          * ((3 # 10) + inject_Z (hash mod 10) / inject_Z 20))%Q.

(** engagementRate = 1.5 + (hash mod 50)/10 rounded to 2 decimals: the
    rounded value counted in hundredths. *)
Definition engagementRate_hundredths (hash : Z) : Z :=
  Qfloor ((((3 # 2) + inject_Z (hash mod 50) / inject_Z 10) * inject_Z 100)
          + (1 # 2))%Q.

(** The double that a decimal with two places denotes. *)
Definition double_of_hundredths (n : Z) : float := (Js.num n / 100)%float.

(** A handle is valid when it is not empty and matches [[A-Za-z0-9._]+]. *)
Definition handle_char (c : ascii) : Prop :=
  let n := N_of_ascii c in
  (97 <= n <= 122)%N \/ (65 <= n <= 90)%N \/ (48 <= n <= 57)%N
  \/ c = "."%char \/ c = "_"%char.

Definition valid_handle (h : string) : Prop :=
  h <> EmptyString /\ Forall handle_char (list_ascii_of_string h).

End MetricSpec.

(** ** The handler's contract, in the words of the specification *)

Module HandlerSpec.

(** The request body parsed to a value that has properties. *)
Definition parsed (requestBody : option Route.json) : Prop :=
  exists v, requestBody = Some v /\ v <> Route.JNull.

(** The request's [handle] is the string [s]. *)
Definition handle_is (requestBody : option Route.json) (s : string) : Prop :=
  exists v, requestBody = Some v /\ Route.handle_property v = Some (Route.JString s).

(** The request's handle is missing or not a string. *)
Definition missing_or_not_string (requestBody : option Route.json) : Prop :=
  forall s, ~ handle_is requestBody s.

(** A character outside [[A-Za-z0-9._]] occurs in [s]. *)
Definition has_foreign_char (s : string) : Prop :=
  Exists (fun c => ~ MetricSpec.handle_char c) (list_ascii_of_string s).

Definition failure (code : Z) (message : string) : Route.response :=
  {| Route.status := code; Route.body := Route.ErrorBody message |}.

(** A leading [@] stripped, then the surrounding white space removed. *)
Definition strip_leading_at (s : string) : string :=
  match s with
  | String "@" rest => rest
  | _ => s
  end.

Definition strip_and_trim (s : string) : string := Js.trim (strip_leading_at s).

(** The five ways a request can go, each with its answer and effects. *)
Inductive POST_case (world : Route.page) (b : option Route.json)
  : Route.response * list Route.effect -> Prop :=
| case_unparsed :
    ~ parsed b ->
    POST_case world b Route.internal_error
| case_not_provided :
    parsed b ->
    (forall s, handle_is b s -> s = EmptyString) ->
    POST_case world b (failure 400 "Invalid handle provided", [])
| case_empty s :
    handle_is b s -> s <> EmptyString ->
    Route.cleanHandle s = EmptyString ->
    POST_case world b (failure 400 "Handle cannot be empty", [])
| case_format s :
    handle_is b s ->
    Route.cleanHandle s <> EmptyString ->
    Js.test_handle_re (Route.cleanHandle s) = false ->
    POST_case world b (failure 400 "Invalid handle format", [])
| case_accepted s :
    handle_is b s ->
    Js.test_handle_re (Route.cleanHandle s) = true ->
    POST_case world b
      ({| Route.status := 200;
          Route.body := Route.DataBody
            (fst (Route.analyzeInstagramAccount world (Route.cleanHandle s))) |},
       snd (Route.analyzeInstagramAccount world (Route.cleanHandle s))).

End HandlerSpec.

(** ** Sorting, in the words of the specification *)

Module SortSpec.

(** Under a comparator, [a] is not placed after [b]; [x] and [y] compare
    equal. *)
Definition not_after {A : Type} (c : A -> A -> comparison) (a b : A) : Prop :=
  c a b <> Gt.

Definition tied {A : Type} (c : A -> A -> comparison) (x y : A) : bool :=
  match c x y with
  | Eq => true
  | _ => false
  end.

(** [output] is the stable sort of [input]: the same rows, in order, and
    the rows that compare equal in the order they had. *)
Definition stable_sort_of {A : Type} (c : A -> A -> comparison)
  (input output : list A) : Prop :=
  Permutation input output
  /\ StronglySorted (not_after c) output
  /\ forall x, List.filter (tied c x) output = List.filter (tied c x) input.

(** The number a double stands for: a real, one of the two infinities, or
    none (NaN).  The sign bit and the mantissa make a signed integer, scaled
    by a power of two. *)
Inductive number :=
| Not_a_number
| Minus_infinity
| Real (q : Q)
| Plus_infinity.

Definition signed (s : bool) (m : positive) : Z := if s then Zneg m else Zpos m.

Definition spec_value (x : spec_float) : number :=
  match x with
  | S754_zero _ => Real 0
  | S754_finite s m e => Real (inject_Z (signed s m) * Qpower (2 # 1) e)
  | S754_infinity s => if s then Minus_infinity else Plus_infinity
  | S754_nan => Not_a_number
  end.

Definition double_value (x : float) : number := spec_value (Prim2SF x).

Definition is_NaN (x : float) : bool :=
  match Prim2SF x with
  | S754_nan => true
  | _ => false
  end.

(** The order of numbers: the reals by their order, minus infinity below
    them and plus infinity above.  NaN has no place in it; it is put first
    so that the order is total, and what is said of rates is said of rows
    that hold none. *)
Definition rank (n : number) : Z :=
  match n with
  | Not_a_number => 0
  | Minus_infinity => 1
  | Real _ => 2
  | Plus_infinity => 3
  end.

Definition numerically (a b : number) : comparison :=
  match a, b with
  | Real p, Real q => Qcompare p q
  | _, _ => Z.compare (rank a) (rank b)
  end.

(** The string form of the two optional fields: the tag, the message, and
    "undefined" for a field that is not there. *)
Definition status_text (v : option Page.statusTag) : string :=
  match v with
  | None => "undefined"
  | Some Page.StatusLoading => "loading"
  | Some Page.StatusSuccess => "success"
  | Some Page.StatusError => "error"
  end.

Definition error_text (v : option string) : string :=
  match v with
  | None => "undefined"
  | Some message => message
  end.

(** Numeric fields compare numerically, all other fields by the
    lexicographic order of their lower-cased string form. *)
Definition caseless (s t : string) : comparison :=
  String.compare (Js.toLowerCase s) (Js.toLowerCase t).

Definition ascending (k : Page.key) (a b : Page.InstagramData) : comparison :=
  match k with
  | Page.Kfollowers => Z.compare (Page.followers a) (Page.followers b)
  | Page.KaverageViews => Z.compare (Page.averageViews a) (Page.averageViews b)
  | Page.KengagementRate =>
      numerically (double_value (Page.engagementRate a))
                  (double_value (Page.engagementRate b))
  | Page.Khandle => caseless (Page.handle a) (Page.handle b)
  | Page.Kname => caseless (Page.name a) (Page.name b)
  | Page.Kcategory => caseless (Page.category a) (Page.category b)
  | Page.Klocation => caseless (Page.location a) (Page.location b)
  | Page.Kstatus => caseless (status_text (Page.status a)) (status_text (Page.status b))
  | Page.Kerror => caseless (error_text (Page.error a)) (error_text (Page.error b))
  end.

Definition compare (k : Page.key) (d : Page.direction)
  (a b : Page.InstagramData) : comparison :=
  match d with
  | Page.Asc => ascending k a b
  | Page.Desc => ascending k b a
  end.

(** Every rate of the rows is a number.  A row gets its rate from a JSON
    text, which has no notation for NaN, or is an error row, with 0. *)
Definition rates_are_numbers (rows : list Page.InstagramData) : Prop :=
  Forall (fun r => is_NaN (Page.engagementRate r) = false) rows.

(** The engagement rates a row can hold: 0 in an error row, and the fifty
    values the endpoint derives. *)
Definition endpoint_rates : list float :=
  0%float :: map (fun k => Route.engagementRate_of (Z.of_nat k)) (seq 0 50).

Definition rates_known (rows : list Page.InstagramData) : Prop :=
  Forall (fun r => In (Page.engagementRate r) endpoint_rates) rows.

End SortSpec.

(** ** Rows in front of the route handler *)

Module RowSpec.

(** A row as the page gets it from the route handler. *)
Definition route_row (r : Page.InstagramData) : Prop :=
  (Page.status r = Some Page.StatusSuccess
   /\ Page.error r = None
   /\ MetricSpec.valid_handle (Page.handle r)
   /\ 1000 <= Page.followers r <= 500999
   /\ In (Page.engagementRate r) SortSpec.endpoint_rates)
  \/ (Page.status r = Some Page.StatusError
      /\ Page.followers r = 0 /\ Page.averageViews r = 0
      /\ Page.engagementRate r = 0%float
      /\ (Page.error r = Some "Handle cannot be empty"
          \/ Page.error r = Some "Invalid handle format")).

End RowSpec.

(** ** Names, in the words of the specification *)

Module NameSpec.

(** What a name spells: its letters and digits in order, lower-cased, the
    spaces, dots and underscores left out. *)
Definition is_separator (c : ascii) : bool :=
  (c =? " ")%char || (c =? ".")%char || (c =? "_")%char.

Fixpoint spelling (s : string) : string :=
  match s with
  | EmptyString => EmptyString
  | String c rest =>
      if is_separator c then spelling rest
      else String (Js.lower_char c) (spelling rest)
  end.

(** The capital of a small letter; any other character stays as it is. *)
Fixpoint capital_in (small capitals : string) (c : ascii) : ascii :=
  match small, capitals with
  | String l small', String u capitals' =>
      if (c =? l)%char then u else capital_in small' capitals' c
  | _, _ => c
  end.

Definition capital (c : ascii) : ascii :=
  capital_in "abcdefghijklmnopqrstuvwxyz" "ABCDEFGHIJKLMNOPQRSTUVWXYZ" c.

(** The four transforms of a handle.  First: its first character made
    capital. *)
Definition capitalized (s : string) : string :=
  match s with
  | EmptyString => EmptyString
  | String c rest => String (capital c) rest
  end.

(** Second: every character made capital. *)
Fixpoint all_capitals (s : string) : string :=
  match s with
  | EmptyString => EmptyString
  | String c rest => String (capital c) (all_capitals rest)
  end.

(** Third: every dot and underscore turned into a space, and the first
    character of the handle and each character after a dot or underscore
    made capital. *)
Fixpoint words_capitalized (start : bool) (s : string) : string :=
  match s with
  | EmptyString => EmptyString
  | String c rest =>
      if ((c =? ".") || (c =? "_"))%char
      then String " " (words_capitalized true rest)
      else String (if start then capital c else c) (words_capitalized false rest)
  end.

(** Fourth: the handle cut after its fourth character, the two parts
    capitalized and set apart by a space. *)
Fixpoint first_chars (n : nat) (s : string) : string :=
  match n, s with
  | S k, String c rest => String c (first_chars k rest)
  | _, _ => EmptyString
  end.

Fixpoint after_chars (n : nat) (s : string) : string :=
  match n, s with
  | S k, String c rest => after_chars k rest
  | _, _ => s
  end.

Definition halves_capitalized (s : string) : string :=
  capitalized (first_chars 4 s) ++ " " ++ capitalized (after_chars 4 s).

Definition transforms (h : string) : list string :=
  [ capitalized h; all_capitals h; words_capitalized true h; halves_capitalized h ].

End NameSpec.

(** ** The floating-point steps, checked over every residue *)

(** [averageViews] floors a product of doubles.  Its factor
    [0.3 + d/20] is not always the rational [(6 + d)/20] (at [d = 3] it is
    the double just below 0.45), so the floor is compared with the exact
    quotient on every pair of a residue [d] and a followers count that can
    occur with it. *)
Definition views_test (d f : Z) : bool :=
  let n := Js.Math_floor (Js.num f * (0.3 + Js.num d / 20))%float in
  let a := f * (6 + d) in
  (20 * n <=? a) && (a <? 20 * n + 20).

Fixpoint views_scan (d : Z) (count : nat) (f : Z) : bool :=
  match count with
  | O => true
  | S k => views_test d f && views_scan d k (f + 10)
  end.

(** The rate: fifty residues, each printed with two decimals and read back. *)
Definition rate_test (k : Z) : bool :=
  match Prim2SF (1.5 + Js.num k / 10)%float with
  | S754_finite false m e => Js.toFixed2_digits m e =? 150 + 10 * k
  | _ => false
  end.


(** [formatNumber] on the round values: [100 * m] shown in thousands and
    [100000 * m] shown in millions, against the digits of [m]. *)
Definition tenths (m : Z) : string :=
  Js.decimal (m / 10) ++ "." ++ Js.decimal (m mod 10).

(** The digits [toFixed(1)] prints for a positive finite double. *)
Definition printed_tenths (x : float) : option Z :=
  match Prim2SF x with
  | S754_finite false m e => Some (Js.toFixed1_digits m e)
  | _ => None
  end.

Definition prints (x : float) (n : Z) : bool :=
  match printed_tenths x with
  | Some k => k =? n
  | None => false
  end.

Definition format_test (m : Z) : bool :=
  prints (Js.num (100 * m) / 1000)%float m
  && prints (Js.num (100000 * m) / 1000000)%float m.

(** The integers [lo], [lo + 1], ..., [len] of them. *)
Fixpoint zfrom (lo : Z) (count : nat) : list Z :=
  match count with
  | O => nil
  | S k => lo :: zfrom (lo + 1) k
  end.

Definition zrange (lo len : Z) : list Z := zfrom lo (Z.to_nat len).

Definition format_edge_test (n : Z) : bool :=
  prints (Js.num n / 1000)%float 10000.

(** The sign of a double read off its sign bit: what [sort] sees of a
    comparator's result. *)
Definition sign_of_spec (x : spec_float) : comparison :=
  match x with
  | S754_finite true _ _ | S754_infinity true => Lt
  | S754_finite false _ _ | S754_infinity false => Gt
  | _ => Eq
  end.

(** * Properties *)

Example Math_floor_samples :
  map Js.Math_floor [2.5; -2.5; -3; 0.25; -0.25; 0; 899.9999999999999; 1e20]%float
  = [2; -3; -3; 0; -1; 0; 899; 100000000000000000000].
Proof. vm_compute. reflexivity. Qed.

Example parseFloat_toFixed2_samples :
  map Js.parseFloat_toFixed2 [1.5; 2.345; 1.005; 6.4; 0.125; -0.125; 3]%float
  = [1.5; 2.35; 1; 6.4; 0.13; -0.13; 3]%float.
Proof. vm_compute. reflexivity. Qed.

Example POST_test :
  Route.POST Route.FetchFailed (Some (Route.JObject [("handle", Route.JString "@test ")]))
  = ({| Route.status := 200;
        Route.body := Route.DataBody
          {| Route.handle := "test"; Route.name := "Test";
             Route.followers := 71336; Route.averageViews := 49935;
             Route.category := "Education"; Route.engagementRate := 6.3%float;
             Route.location := "Los Angeles, CA" |} |},
     [Route.HttpGet "https://www.instagram.com/test/";
      Route.ConsoleLog "Could not fetch data for test, using generated data"]).
Proof. vm_compute. reflexivity. Qed.


Example formatNumber_samples :
  map Page.formatNumber [1500000; 2500; 999; 0; 71336; 1450; 999999; 1000000]
  = ["1.5M"; "2.5K"; "999"; "0"; "71.3K"; "1.4K"; "1000.0K"; "1.0M"].
Proof. vm_compute. reflexivity. Qed.

(** ** Handles that pass the format test *)

Lemma handle_char_spec (c : ascii) :
  Js.handle_char c = true <-> MetricSpec.handle_char c.
Proof.
  unfold Js.handle_char, MetricSpec.handle_char, Js.in_range.
  rewrite !orb_true_iff, !andb_true_iff, !N.leb_le, !Ascii.eqb_eq.
  tauto.
Qed.

Lemma all_chars_Forall (p : ascii -> bool) (s : string) :
  Js.all_chars p s = true <-> Forall (fun c => p c = true) (list_ascii_of_string s).
Proof.
  induction s as [|c s IH]; simpl.
  - split; [constructor | reflexivity].
  - rewrite andb_true_iff, IH. split.
    + intros [Hc Hs]. now constructor.
    + intros H. inversion H; subst. now split.
Qed.

Lemma test_handle_re_spec (h : string) :
  Js.test_handle_re h = true <-> MetricSpec.valid_handle h.
Proof.
  unfold MetricSpec.valid_handle. destruct h as [|c h].
  - simpl. split; [discriminate | intros [H _]; now contradiction H].
  - change (Js.test_handle_re (String c h)) with (Js.all_chars Js.handle_char (String c h)).
    rewrite all_chars_Forall. split.
    + intros H. split; [discriminate|].
      eapply List.Forall_impl; [|exact H]. intros a Ha. now apply handle_char_spec.
    + intros [_ H]. eapply List.Forall_impl; [|exact H].
      intros a Ha. now apply handle_char_spec.
Qed.

Lemma handle_char_plain (c : ascii) :
  Js.handle_char c = true -> Js.is_space c = false /\ (c =? "@")%char = false.
Proof.
  destruct c as [[|] [|] [|] [|] [|] [|] [|] [|]]; vm_compute; intros H;
    first [discriminate H | split; reflexivity].
Qed.

Lemma replace_at_without_at (s : string) :
  Js.all_chars (fun c => negb (c =? "@")%char) s = true -> Js.replace_at s = s.
Proof.
  induction s as [|c s IH]; simpl; [reflexivity|].
  intros H. apply andb_prop in H as [Hc Hs].
  destruct (c =? "@")%char; [discriminate|]. now rewrite IH.
Qed.

Lemma trimEnd_without_space (s : string) :
  Js.all_chars (fun c => negb (Js.is_space c)) s = true -> Js.trimEnd s = s.
Proof.
  induction s as [|c s IH]; simpl; [reflexivity|].
  intros H. apply andb_prop in H as [Hc Hs].
  rewrite (IH Hs). destruct s; [|reflexivity].
  destruct (Js.is_space c); [discriminate | reflexivity].
Qed.

Lemma trim_without_space (s : string) :
  Js.all_chars (fun c => negb (Js.is_space c)) s = true -> Js.trim s = s.
Proof.
  intros H. unfold Js.trim.
  assert (Hs : Js.trimStart s = s).
  { destruct s as [|c s]; [reflexivity|]. simpl in *.
    apply andb_prop in H as [Hc _]. now destruct (Js.is_space c). }
  rewrite Hs. now apply trimEnd_without_space.
Qed.

Lemma all_chars_impl (p q : ascii -> bool) (s : string) :
  (forall c, p c = true -> q c = true) ->
  Js.all_chars p s = true -> Js.all_chars q s = true.
Proof.
  intros Hpq. induction s as [|c s IH]; simpl; [reflexivity|].
  intros H. apply andb_prop in H as [Hc Hs].
  now rewrite (Hpq c Hc), (IH Hs).
Qed.

Lemma test_handle_re_all (h : string) :
  Js.test_handle_re h = true -> Js.all_chars Js.handle_char h = true.
Proof. destruct h; [discriminate | exact (fun H => H)]. Qed.

(** A handle that passes the format test is left as it is by the cleaning. *)
Lemma cleanHandle_valid (h : string) :
  Js.test_handle_re h = true -> Route.cleanHandle h = h.
Proof.
  intros H. apply test_handle_re_all in H. unfold Route.cleanHandle.
  rewrite replace_at_without_at.
  - apply trim_without_space. revert H. apply all_chars_impl.
    intros c Hc. now destruct (handle_char_plain c Hc) as [-> _].
  - revert H. apply all_chars_impl.
    intros c Hc. now destruct (handle_char_plain c Hc) as [_ ->].
Qed.

Lemma POST_valid (world : Route.page) (h : string) :
  Js.test_handle_re h = true ->
  Route.POST world (Some (Route.JObject [("handle", Route.JString h)]))
  = ({| Route.status := 200;
        Route.body := Route.DataBody (fst (Route.analyzeInstagramAccount world h)) |},
     snd (Route.analyzeInstagramAccount world h)).
Proof.
  intros H. unfold Route.POST. simpl Route.handle_property.
  destruct h as [|c h]; [discriminate|].
  rewrite (cleanHandle_valid _ H), H. simpl negb.
  destruct (Route.analyzeInstagramAccount world (String c h)) as [d e].
  reflexivity.
Qed.

Lemma analyze_generated (world : Route.page) (h : string) :
  let d := fst (Route.analyzeInstagramAccount world h) in
  let hash := Route.hash_of h in
  Route.handle d = h
  /\ Route.followers d = Route.followers_of hash
  /\ Route.averageViews d = Route.averageViews_of hash
  /\ Route.engagementRate d = Route.engagementRate_of hash
  /\ Route.category d = Route.at_index Route.categories (Z.rem hash 15)
  /\ Route.location d = Route.at_index Route.locations (Z.rem hash 16)
  /\ Route.name d = match Route.enrichment world with
                    | Some n => n
                    | None => Route.at_index (Route.nameVariants h) (Z.rem hash 4)
                    end.
Proof.
  unfold Route.analyzeInstagramAccount.
  destruct world as [|[n|]]; simpl; repeat split; reflexivity.
Qed.

(** ** Facts about the built-ins *)

Lemma charCodeAt0_bounds (c : ascii) : 0 <= Js.charCodeAt0 c < 256.
Proof.
  unfold Js.charCodeAt0. pose proof (N_ascii_bounded c). lia.
Qed.

Lemma fold_left_code_sum (cs : list ascii) (acc : Z) :
  fold_left (fun a ch => a + Js.charCodeAt0 ch) cs acc
  = acc + MetricSpec.code_sum (string_of_list_ascii cs).
Proof.
  revert acc. induction cs as [|c cs IH]; intros acc; simpl.
  - lia.
  - rewrite IH. lia.
Qed.

Lemma hash_of_code_sum (h : string) : Route.hash_of h = MetricSpec.code_sum h.
Proof.
  unfold Route.hash_of, Js.split_chars.
  rewrite fold_left_code_sum, string_of_list_ascii_of_string. lia.
Qed.

Lemma code_sum_nonneg (h : string) : 0 <= MetricSpec.code_sum h.
Proof.
  induction h as [|c h IH]; simpl; [lia|].
  pose proof (charCodeAt0_bounds c). lia.
Qed.

Lemma hash_of_nonneg (h : string) : 0 <= Route.hash_of h.
Proof. rewrite hash_of_code_sum. apply code_sum_nonneg. Qed.

Lemma rem_is_mod (a b : Z) : 0 <= a -> 0 < b -> Z.rem a b = a mod b.
Proof. intros Ha Hb. apply Z.rem_mod_nonneg; lia. Qed.

Lemma followers_of_spec (hash : Z) :
  0 <= hash -> Route.followers_of hash = MetricSpec.followers hash.
Proof.
  intros H. unfold Route.followers_of, MetricSpec.followers.
  rewrite rem_is_mod; lia.
Qed.

Lemma views_scan_sound (d : Z) (count : nat) (f : Z) :
  views_scan d count f = true ->
  forall j, 0 <= j < Z.of_nat count -> views_test d (f + 10 * j) = true.
Proof.
  revert f. induction count as [|k IH]; intros f H j Hj; [lia|].
  simpl in H. apply andb_prop in H as [Hhere Hrest].
  destruct (Z.eq_dec j 0) as [->|Hne].
  - now replace (f + 10 * 0) with f by lia.
  - replace (f + 10 * j) with ((f + 10) + 10 * (j - 1)) by lia.
    apply IH; [exact Hrest | lia].
Qed.

Lemma views_scan_all :
  forallb (fun d => views_scan d (Z.to_nat 50000) (1000 + (7 * d) mod 10))
    [0; 1; 2; 3; 4; 5; 6; 7; 8; 9] = true.
Proof. vm_cast_no_check (eq_refl true). Qed.

Lemma views_floor_exact (d f : Z) :
  0 <= d < 10 -> 1000 <= f < 501000 -> f mod 10 = (7 * d) mod 10 ->
  Js.Math_floor (Js.num f * (0.3 + Js.num d / 20))%float = f * (6 + d) / 20.
Proof.
  intros Hd Hf Hres.
  assert (Hin : In d [0; 1; 2; 3; 4; 5; 6; 7; 8; 9]).
  { simpl. lia. }
  pose proof (proj1 (forallb_forall _ _) views_scan_all d Hin) as Hscan.
  cbv beta in Hscan.
  set (m := (7 * d) mod 10) in *.
  assert (Hm : 0 <= m < 10) by (apply Z.mod_pos_bound; lia).
  pose proof (Z.div_mod f 10 ltac:(lia)) as Hdm. rewrite Hres in Hdm.
  set (j := f / 10 - 100).
  pose proof (views_scan_sound _ _ _ Hscan j) as Ht.
  replace (1000 + m + 10 * j) with f in Ht by (unfold j; lia).
  assert (Hj : 0 <= j < Z.of_nat (Z.to_nat 50000)) by (unfold j; lia).
  specialize (Ht Hj). unfold views_test in Ht.
  apply andb_prop in Ht as [Hlo Hhi].
  apply Z.leb_le in Hlo. apply Z.ltb_lt in Hhi.
  apply Z.div_unique with (r := f * (6 + d) - 20 * Js.Math_floor (Js.num f * (0.3 + Js.num d / 20))%float); lia.
Qed.

Lemma followers_residue (hash : Z) :
  MetricSpec.followers hash mod 10 = (7 * (hash mod 10)) mod 10.
Proof.
  unfold MetricSpec.followers.
  rewrite <- Z.add_mod_idemp_r by lia.
  rewrite Z.mod_mod_divide by (exists 50000; lia).
  rewrite Z.add_mod_idemp_r by lia.
  rewrite Z.mul_mod_idemp_r by lia.
  replace (1000 + hash * 157) with (7 * hash + (100 + 15 * hash) * 10) by lia.
  now rewrite Z_mod_plus_full.
Qed.

Lemma followers_bounds (hash : Z) : 1000 <= MetricSpec.followers hash < 501000.
Proof.
  unfold MetricSpec.followers.
  pose proof (Z.mod_pos_bound (hash * 157) 500000). lia.
Qed.

Lemma averageViews_of_exact (hash : Z) :
  0 <= hash ->
  Route.averageViews_of hash
  = MetricSpec.followers hash * (6 + hash mod 10) / 20.
Proof.
  intros H. unfold Route.averageViews_of.
  rewrite followers_of_spec by exact H.
  rewrite rem_is_mod by lia.
  apply views_floor_exact.
  - apply Z.mod_pos_bound. lia.
  - apply followers_bounds.
  - apply followers_residue.
Qed.

Lemma spec_averageViews_quotient (hash : Z) :
  MetricSpec.averageViews hash
  = MetricSpec.followers hash * (6 + hash mod 10) / 20.
Proof.
  unfold MetricSpec.averageViews.
  transitivity (Qfloor (MetricSpec.followers hash * (6 + hash mod 10) # 20)).
  - apply Qfloor_comp. unfold Qeq. simpl. lia.
  - reflexivity.
Qed.

Lemma rate_scan_all :
  forallb rate_test (map Z.of_nat (seq 0 50)) = true.
Proof. vm_cast_no_check (eq_refl true). Qed.

Lemma rate_digits_exact (k : Z) :
  0 <= k < 50 ->
  Js.parseFloat_toFixed2 (1.5 + Js.num k / 10)%float
  = MetricSpec.double_of_hundredths (150 + 10 * k).
Proof.
  intros Hk.
  assert (Hin : In k (map Z.of_nat (seq 0 50))).
  { apply in_map_iff. exists (Z.to_nat k). split; [lia|].
    apply in_seq. lia. }
  pose proof (proj1 (forallb_forall _ _) rate_scan_all k Hin) as Ht.
  unfold rate_test in Ht. unfold Js.parseFloat_toFixed2.
  destruct (Prim2SF (1.5 + Js.num k / 10)%float) as [| | |[|] m e]; try discriminate.
  apply Z.eqb_eq in Ht. rewrite Ht. reflexivity.
Qed.

Lemma spec_engagementRate_hundredths (hash : Z) :
  MetricSpec.engagementRate_hundredths hash = 150 + 10 * (hash mod 50).
Proof.
  unfold MetricSpec.engagementRate_hundredths.
  transitivity (Qfloor ((150 + 10 * (hash mod 50)) * 2 + 1 # 2)).
  - apply Qfloor_comp. unfold Qeq. simpl. lia.
  - unfold Qfloor. symmetry. apply Z.div_unique with (r := 1); lia.
Qed.

Lemma engagementRate_of_exact (hash : Z) :
  0 <= hash ->
  Route.engagementRate_of hash
  = MetricSpec.double_of_hundredths (MetricSpec.engagementRate_hundredths hash).
Proof.
  intros H. unfold Route.engagementRate_of.
  rewrite rem_is_mod by lia.
  rewrite spec_engagementRate_hundredths.
  apply rate_digits_exact. apply Z.mod_pos_bound. lia.
Qed.
(** ** The four name transforms *)

Lemma substring_split (s : string) (a n m : nat) :
  substring a (n + m) s = (substring a n s ++ substring (a + n) m s)%string.
Proof.
  revert a n. induction s as [|c s IH]; intros a n.
  - destruct a, n, m; reflexivity.
  - destruct a as [|a].
    + destruct n as [|n]; simpl; [reflexivity|].
      now rewrite (IH 0%nat n).
    + simpl. apply IH.
Qed.

Lemma substring_whole (s : string) (n : nat) :
  (String.length s <= n)%nat -> substring 0 n s = s.
Proof.
  revert n. induction s as [|c s IH]; intros n H.
  - now destruct n.
  - destruct n as [|n]; simpl in *; [lia|]. rewrite IH; [reflexivity | lia].
Qed.

Lemma charAt_substring (i : nat) (s : string) : Js.charAt i s = substring i 1 s.
Proof.
  unfold Js.charAt. revert i. induction s as [|c s IH]; intros i.
  - now destruct i.
  - destruct i as [|i]; simpl; [now destruct s | apply IH].
Qed.

Lemma capital_upper_char (c : ascii) : Js.upper_char c = NameSpec.capital c.
Proof.
  destruct c as [[|] [|] [|] [|] [|] [|] [|] [|]]; vm_compute; reflexivity.
Qed.

Lemma toUpperCase_all_capitals (s : string) :
  Js.toUpperCase s = NameSpec.all_capitals s.
Proof.
  induction s as [|c s IH]; simpl; [reflexivity|].
  now rewrite IH, capital_upper_char.
Qed.

Lemma capitalize_capitalized (s : string) :
  Route.capitalize s = NameSpec.capitalized s.
Proof.
  unfold Route.capitalize, Js.slice_from. destruct s as [|c s]; [reflexivity|].
  cbn [Js.charAt String.get Js.toUpperCase NameSpec.capitalized String.length].
  rewrite capital_upper_char. cbn [append]. f_equal.
  cbn [Nat.sub substring]. rewrite Nat.sub_0_r. now apply substring_whole.
Qed.

Lemma join_cons_char (c : ascii) (p : string) (ps : list string) :
  Js.join " " (String c p :: ps) = String c (Js.join " " (p :: ps)).
Proof. unfold Js.join. destruct ps; reflexivity. Qed.

Lemma join_cons_sep (x y : string) (l : list string) :
  Js.join " " (x :: y :: l) = (x ++ " " ++ Js.join " " (y :: l))%string.
Proof. reflexivity. Qed.

Lemma split_dot_underscore_words (s : string) :
  match Js.split_dot_underscore s with
  | p :: ps =>
      Js.join " " (Route.capitalize p :: map Route.capitalize ps)
      = NameSpec.words_capitalized true s
      /\ Js.join " " (p :: map Route.capitalize ps)
         = NameSpec.words_capitalized false s
  | [] => False
  end.
Proof.
  induction s as [|c s IH]; [split; reflexivity|].
  cbn [Js.split_dot_underscore NameSpec.words_capitalized].
  unfold Js.is_dot_or_underscore.
  destruct ((c =? ".") || (c =? "_"))%char.
  - destruct (Js.split_dot_underscore s) as [|p ps]; [contradiction|].
    destruct IH as [IH _]. cbn [map].
    rewrite !join_cons_sep. change (Route.capitalize "") with EmptyString.
    cbn [append]. rewrite IH. split; reflexivity.
  - destruct (Js.split_dot_underscore s) as [|p ps]; [contradiction|].
    destruct IH as [_ IH].
    rewrite capitalize_capitalized. cbn [NameSpec.capitalized].
    rewrite !join_cons_char, IH. split; reflexivity.
Qed.

Lemma substring_first_chars (n : nat) (s : string) :
  substring 0 n s = NameSpec.first_chars n s.
Proof.
  revert s. induction n as [|n IH]; intros [|c s]; simpl; try reflexivity.
  now rewrite IH.
Qed.

Lemma head_capitalized (n : nat) (s : string) :
  (Js.toUpperCase (Js.charAt 0 s) ++ Js.slice 1 (S n) s)%string
  = NameSpec.capitalized (NameSpec.first_chars (S n) s).
Proof.
  unfold Js.slice. destruct s as [|c s]; [reflexivity|].
  cbn [Js.charAt String.get Js.toUpperCase NameSpec.first_chars NameSpec.capitalized].
  rewrite capital_upper_char. cbn [append Nat.sub substring]. f_equal.
  rewrite Nat.sub_0_r. apply substring_first_chars.
Qed.

Lemma tail_capitalized (n : nat) (s : string) :
  (Js.toUpperCase (Js.charAt n s) ++ Js.slice_from (S n) s)%string
  = NameSpec.capitalized (NameSpec.after_chars n s).
Proof.
  revert s. induction n as [|n IH]; intros s.
  - change (NameSpec.after_chars 0 s) with s.
    rewrite <- capitalize_capitalized. reflexivity.
  - destruct s as [|c s]; [reflexivity|].
    cbn [NameSpec.after_chars]. rewrite <- IH.
    unfold Js.charAt, Js.slice_from. cbn [String.get String.length Nat.sub substring].
    reflexivity.
Qed.

Lemma nameVariants_transforms (h : string) :
  Route.nameVariants h = NameSpec.transforms h.
Proof.
  unfold Route.nameVariants, NameSpec.transforms, NameSpec.halves_capitalized.
  rewrite capitalize_capitalized, toUpperCase_all_capitals.
  rewrite (head_capitalized 3 h), (tail_capitalized 4 h).
  f_equal. f_equal. f_equal.
  pose proof (split_dot_underscore_words h) as H.
  destruct (Js.split_dot_underscore h) as [|p ps]; [contradiction|].
  cbn [map]. now rewrite (proj1 H).
Qed.


(** ** The derived metrics *)

(** C1. For every valid handle, with no enrichment, the endpoint answers 200
    with a record derived from [hash], the sum of the handle's character
    codes: followers is [1000 + (hash * 157) mod 500000], averageViews the
    floor of [followers * (0.3 + (hash mod 10)/20)], engagementRate the
    double of [1.5 + (hash mod 50)/10] rounded to two decimals, category and
    location the entries [hash mod 15] and [hash mod 16] of the lists of 15
    and 16 labels, and name the entry [hash mod 4] of the four transforms:
    the handle with its first character capital, all in capitals, with its
    dots and underscores turned into spaces and each word capitalized, and
    cut after its fourth character with both parts capitalized. *)
Theorem metric_derivation (h : string) (world : Route.page) :
  MetricSpec.valid_handle h ->
  Route.enrichment world = None ->
  let hash := MetricSpec.code_sum h in
  exists d,
    fst (Route.POST world (Some (Route.JObject [("handle", Route.JString h)])))
    = {| Route.status := 200; Route.body := Route.DataBody d |}
    /\ d = fst (Route.analyzeInstagramAccount world h)
    /\ Route.hash_of h = hash
    /\ Route.followers d = MetricSpec.followers hash
    /\ Route.averageViews d = MetricSpec.averageViews hash
    /\ Route.engagementRate d
       = MetricSpec.double_of_hundredths (MetricSpec.engagementRate_hundredths hash)
    /\ length Route.categories = 15%nat
    /\ nth_error Route.categories (Z.to_nat (hash mod 15)) = Some (Route.category d)
    /\ length Route.locations = 16%nat
    /\ nth_error Route.locations (Z.to_nat (hash mod 16)) = Some (Route.location d)
    /\ length (Route.nameVariants h) = 4%nat
    /\ nth_error (Route.nameVariants h) (Z.to_nat (hash mod 4)) = Some (Route.name d)
    /\ Route.nameVariants h = NameSpec.transforms h
    /\ nth_error (NameSpec.transforms h) (Z.to_nat (hash mod 4)) = Some (Route.name d).
Proof.
  intros Hvalid Hworld hash.
  apply test_handle_re_spec in Hvalid.
  exists (fst (Route.analyzeInstagramAccount world h)).
  pose proof (analyze_generated world h) as Hgen. cbv zeta in Hgen.
  destruct Hgen as (_ & Hf & Hv & He & Hc & Hl & Hn).
  rewrite Hworld in Hn.
  assert (Hhash : Route.hash_of h = hash) by apply hash_of_code_sum.
  assert (Hpos : 0 <= hash) by apply code_sum_nonneg.
  rewrite Hhash in *.
  assert (Hnth : forall (xs : list string) (n : Z),
             0 < n -> Z.of_nat (length xs) = n ->
             nth_error xs (Z.to_nat (hash mod n))
             = Some (Route.at_index xs (Z.rem hash n))).
  { intros xs n Hn0 Hlen. rewrite rem_is_mod by lia.
    unfold Route.at_index. apply nth_error_nth'.
    pose proof (Z.mod_pos_bound hash n Hn0). lia. }
  split; [now rewrite POST_valid|].
  split; [reflexivity|].
  split; [reflexivity|].
  split; [now rewrite Hf, followers_of_spec|].
  split; [now rewrite Hv, averageViews_of_exact, spec_averageViews_quotient|].
  split; [now rewrite He, engagementRate_of_exact|].
  split; [reflexivity|].
  split; [rewrite Hc; now apply Hnth|].
  split; [reflexivity|].
  split; [rewrite Hl; now apply Hnth|].
  split; [reflexivity|].
  split; [rewrite Hn; now apply Hnth|].
  split; [apply nameVariants_transforms|].
  rewrite <- nameVariants_transforms, Hn. now apply Hnth.
Qed.

Lemma metric_derivation_witness :
  MetricSpec.valid_handle "test"
  /\ Route.enrichment Route.FetchFailed = None
  /\ exists d,
       fst (Route.POST Route.FetchFailed
              (Some (Route.JObject [("handle", Route.JString "test")])))
       = {| Route.status := 200; Route.body := Route.DataBody d |}
       /\ Route.followers d = MetricSpec.followers (MetricSpec.code_sum "test")
       /\ Route.averageViews d = MetricSpec.averageViews (MetricSpec.code_sum "test")
       /\ NameSpec.transforms "test" = ["Test"; "TEST"; "Test"; "Test "]
       /\ nth_error (NameSpec.transforms "test")
            (Z.to_nat (MetricSpec.code_sum "test" mod 4)) = Some (Route.name d).
Proof.
  assert (Hv : MetricSpec.valid_handle "test").
  { split; [discriminate|]. repeat constructor; unfold MetricSpec.handle_char; simpl; lia. }
  split; [exact Hv|]. split; [reflexivity|].
  destruct (metric_derivation "test" Route.FetchFailed Hv eq_refl)
    as (d & Hpost & _ & _ & Hfollowers & Hviews & _ & _ & _ & _ & _ & _ & _ & _ & Hname).
  exists d. split; [exact Hpost|]. split; [exact Hfollowers|].
  split; [exact Hviews|]. split; [reflexivity | exact Hname].
Defined.

(** C2, as the code has it.  For the handle "test" the hash is 448, the
    endpoint answers 200 with followers 71336, the category at index 13 of
    the list, which is "Education", and the location at index 0,
    "Los Angeles, CA", whatever the enrichment does. *)
Theorem test_handle_metrics (world : Route.page) :
  exists d effects,
    Route.POST world (Some (Route.JObject [("handle", Route.JString "test")]))
    = ({| Route.status := 200; Route.body := Route.DataBody d |}, effects)
    /\ Route.hash_of "test" = 448
    /\ Route.followers d = 71336
    /\ 448 mod 15 = 13
    /\ nth_error Route.categories 13 = Some "Education"
    /\ Route.category d = "Education"
    /\ 448 mod 16 = 0
    /\ Route.location d = "Los Angeles, CA".
Proof.
  exists (fst (Route.analyzeInstagramAccount world "test")),
         (snd (Route.analyzeInstagramAccount world "test")).
  split; [apply POST_valid; reflexivity|].
  destruct world as [|[n|]]; vm_compute; repeat split; reflexivity.
Qed.

(** C2 as stated fails: the category returned for "test" is not "Fashion",
    which stands at index 8 of the list, not 13. *)
Lemma test_handle_category_not_fashion :
  Route.category (fst (Route.analyzeInstagramAccount Route.FetchFailed "test")) <> "Fashion"
  /\ nth_error Route.categories 13 <> Some "Fashion"
  /\ nth_error Route.categories 8 = Some "Fashion".
Proof. vm_compute. repeat split; discriminate. Qed.

(** ** Validation in [POST] *)

Lemma handle_is_functional (b : option Route.json) (s t : string) :
  HandlerSpec.handle_is b s -> HandlerSpec.handle_is b t -> s = t.
Proof.
  intros (v & Hv & Hs) (w & Hw & Ht). congruence.
Qed.

Lemma test_handle_re_false (s : string) :
  s <> EmptyString ->
  Js.test_handle_re s = false <-> HandlerSpec.has_foreign_char s.
Proof.
  intros Hne. unfold HandlerSpec.has_foreign_char. split.
  - intros H. apply List.Exists_Forall_neg.
    + intros c. destruct (Js.handle_char c) eqn:E.
      * left. now apply handle_char_spec.
      * right. intros Hc. apply handle_char_spec in Hc. congruence.
    + intros HF. assert (Js.test_handle_re s = true); [|congruence].
      apply test_handle_re_spec. now split.
  - intros HE. destruct (Js.test_handle_re s) eqn:E; [|reflexivity].
    apply test_handle_re_spec in E as [_ HF].
    apply List.Exists_exists in HE as (c & Hin & Hc).
    rewrite List.Forall_forall in HF. now contradiction Hc; apply HF.
Qed.

Lemma length_zero_empty (s : string) :
  (String.length s =? 0)%nat = true <-> s = EmptyString.
Proof. destruct s; simpl; split; congruence. Qed.

Lemma POST_cases (world : Route.page) (b : option Route.json) :
  HandlerSpec.POST_case world b (Route.POST world b).
Proof.
  destruct b as [v|].
  2:{ apply HandlerSpec.case_unparsed. intros (v & Hv & _). discriminate. }
  assert (Hnot : forall w, w <> Route.JNull ->
            (forall s, Route.handle_property w <> Some (Route.JString s)
                       \/ s = EmptyString) ->
            HandlerSpec.POST_case world (Some w)
              (HandlerSpec.failure 400 "Invalid handle provided", [])).
  { intros w Hw Hall. apply HandlerSpec.case_not_provided.
    - now exists w.
    - intros s (w' & Hw' & Hs). injection Hw' as <-.
      destruct (Hall s) as [H|H]; [contradiction | exact H]. }
  destruct v as [|bv|x|s|items|members].
  - apply HandlerSpec.case_unparsed. intros (v & Hv & Hn). congruence.
  - apply Hnot; [discriminate|]. intros s. left. discriminate.
  - apply Hnot; [discriminate|]. intros s. left. discriminate.
  - apply Hnot; [discriminate|]. intros t. left. discriminate.
  - apply Hnot; [discriminate|]. intros s. left. discriminate.
  - unfold Route.POST.
    destruct (Route.handle_property (Route.JObject members)) as [h|] eqn:Hp.
    2:{ apply Hnot; [discriminate|]. intros s. left. congruence. }
    destruct h as [|bv|x|s|items|ms];
      try (apply Hnot; [discriminate|]; intros s'; left; congruence).
    destruct s as [|c rest].
    { apply Hnot; [discriminate|]. intros s'.
      destruct s'; [now right | left; congruence]. }
    assert (His : HandlerSpec.handle_is (Some (Route.JObject members)) (String c rest)).
    { now exists (Route.JObject members). }
    destruct (String.length (Route.cleanHandle (String c rest)) =? 0)%nat eqn:El.
    { apply length_zero_empty in El.
      now apply HandlerSpec.case_empty with (s := String c rest). }
    assert (Hne : Route.cleanHandle (String c rest) <> EmptyString).
    { intros E. apply length_zero_empty in E. congruence. }
    destruct (Js.test_handle_re (Route.cleanHandle (String c rest))) eqn:Et; simpl negb; cbv iota.
    + destruct (Route.analyzeInstagramAccount world (Route.cleanHandle (String c rest)))
        as [d e] eqn:Ea.
      pose proof (HandlerSpec.case_accepted world _ _ His Et) as Hc.
      now rewrite Ea in Hc.
    + now apply HandlerSpec.case_format with (s := String c rest).
Qed.

Lemma not_parsed_no_handle (b : option Route.json) (s : string) :
  ~ HandlerSpec.parsed b -> ~ HandlerSpec.handle_is b s.
Proof.
  intros Hn (v & Hv & Hs). apply Hn. exists v. split; [exact Hv|].
  intros ->. discriminate.
Qed.

Lemma handle_is_parsed (b : option Route.json) (s : string) :
  HandlerSpec.handle_is b s -> HandlerSpec.parsed b.
Proof.
  intros (v & Hv & Hs). exists v. split; [exact Hv|]. intros ->. discriminate.
Qed.

Ltac same_handle :=
  match goal with
  | H1 : HandlerSpec.handle_is ?b ?s, H2 : HandlerSpec.handle_is ?b ?t |- _ =>
      pose proof (handle_is_functional b s t H1 H2); subst; clear H2
  end.

(** A non-empty handle whose cleaned form passes the format test is
    answered from that cleaned form. *)
Lemma POST_accepts (world : Route.page) (s : string) :
  s <> EmptyString ->
  Js.test_handle_re (Route.cleanHandle s) = true ->
  Route.POST world (Some (Route.JObject [("handle", Route.JString s)]))
  = ({| Route.status := 200;
        Route.body := Route.DataBody
          (fst (Route.analyzeInstagramAccount world (Route.cleanHandle s))) |},
     snd (Route.analyzeInstagramAccount world (Route.cleanHandle s))).
Proof.
  intros Hne Ht. unfold Route.POST. simpl Route.handle_property.
  destruct s as [|c rest]; [now contradiction Hne|].
  assert (El : (String.length (Route.cleanHandle (String c rest)) =? 0)%nat = false).
  { destruct (Route.cleanHandle (String c rest)); [discriminate Ht | reflexivity]. }
  rewrite El, Ht. simpl negb. cbv iota.
  now destruct (Route.analyzeInstagramAccount world (Route.cleanHandle (String c rest))).
Qed.

Ltac post_facts :=
  repeat match goal with
    | H : _ /\ _ |- _ => destruct H
    | H : exists _, _ |- _ => destruct H
    | H : ~ HandlerSpec.parsed ?b, H' : HandlerSpec.handle_is ?b ?s |- _ =>
        contradiction (not_parsed_no_handle b s H H')
    | H : ~ HandlerSpec.parsed ?b, H' : HandlerSpec.parsed ?b |- _ =>
        contradiction
    | H : HandlerSpec.handle_is ?b ?s |- HandlerSpec.parsed ?b =>
        exact (handle_is_parsed b s H)
    | H : forall s, HandlerSpec.handle_is ?b s -> s = EmptyString,
      H' : HandlerSpec.handle_is ?b ?t |- _ =>
        pose proof (H t H'); subst t; clear H
    | H : MetricSpec.valid_handle _ |- _ => apply test_handle_re_spec in H
    | H : HandlerSpec.has_foreign_char ?s, H' : ?s <> EmptyString |- _ =>
        apply (test_handle_re_false s H') in H
    | _ => same_handle
    end;
  try match goal with
    | H : Route.cleanHandle ?s = EmptyString,
      H' : Js.test_handle_re (Route.cleanHandle ?s) = true |- _ =>
        rewrite H in H'; discriminate H'
    end;
  try discriminate; try congruence; try contradiction; try lia; eauto.

(** C3, as the code has it.  A body that does not parse, or parses to
    [null], is answered 500.  Otherwise the answer is 400 "Invalid handle
    provided" iff the handle is missing, not a string, or the empty string;
    400 "Handle cannot be empty" iff it is a non-empty string that the
    cleaning empties; 400 "Invalid handle format" iff the cleaned handle is
    not empty and holds a character outside [[A-Za-z0-9._]]; and 200 with
    the record derived from the cleaned handle in the remaining case.  An
    answer of 400 comes with no effect on the outside. *)
Theorem POST_validation (world : Route.page) (b : option Route.json) :
  let r := fst (Route.POST world b) in
  (r = HandlerSpec.failure 400 "Invalid handle provided"
     <-> HandlerSpec.parsed b
         /\ forall s, HandlerSpec.handle_is b s -> s = EmptyString)
  /\ (r = HandlerSpec.failure 400 "Handle cannot be empty"
     <-> exists s, HandlerSpec.handle_is b s /\ s <> EmptyString
                   /\ Route.cleanHandle s = EmptyString)
  /\ (r = HandlerSpec.failure 400 "Invalid handle format"
     <-> exists s, HandlerSpec.handle_is b s
                   /\ Route.cleanHandle s <> EmptyString
                   /\ HandlerSpec.has_foreign_char (Route.cleanHandle s))
  /\ (Route.status r = 200
     <-> exists s, HandlerSpec.handle_is b s
                   /\ MetricSpec.valid_handle (Route.cleanHandle s))
  /\ (forall s, HandlerSpec.handle_is b s ->
        MetricSpec.valid_handle (Route.cleanHandle s) ->
        Route.body r
        = Route.DataBody (fst (Route.analyzeInstagramAccount world (Route.cleanHandle s))))
  /\ (Route.status r = 500 <-> ~ HandlerSpec.parsed b)
  /\ (Route.status r = 400 \/ Route.status r = 200 \/ Route.status r = 500)
  /\ (Route.status r = 400 -> snd (Route.POST world b) = []).
Proof.
  cbv zeta. pose proof (POST_cases world b) as Hcase.
  inversion Hcase as [Hn Heq | Hp Hall Heq | s His Hs Hc Heq
                     | s His Hc Ht Heq | s His Ht Heq]; clear Hcase.
  all: repeat split; simpl; intros; try solve [post_facts].
  - exists s. repeat split; try assumption. now apply test_handle_re_false.
  - exists s. split; [assumption|]. now apply test_handle_re_spec.
Qed.

(** C3 as stated fails on the empty string: it is a string, and the
    cleaning leaves it empty, yet the answer is "Invalid handle provided"
    and not "Handle cannot be empty". *)
Lemma POST_empty_string_handle :
  let b := Some (Route.JObject [("handle", Route.JString "")]) in
  let r := fst (Route.POST Route.FetchFailed b) in
  ~ ((r = HandlerSpec.failure 400 "Invalid handle provided"
        <-> HandlerSpec.missing_or_not_string b)
     /\ (r = HandlerSpec.failure 400 "Handle cannot be empty"
        <-> exists s, HandlerSpec.handle_is b s
                      /\ HandlerSpec.strip_and_trim s = EmptyString)).
Proof.
  cbv zeta. intros [H1 H2].
  assert (His : HandlerSpec.handle_is
                  (Some (Route.JObject [("handle", Route.JString "")])) "").
  { eexists. split; reflexivity. }
  apply (proj1 H1 eq_refl "" His).
Qed.

(** ** Cleaning a handle, and the list of handle inputs *)

Lemma replace_at_none (s : string) :
  ~ In "@"%char (list_ascii_of_string s) -> Js.replace_at s = s.
Proof.
  induction s as [|c s IH]; simpl; [reflexivity|].
  intros H. destruct (Ascii.eqb_spec c "@") as [->|Hc].
  - contradiction H. now left.
  - rewrite IH; [reflexivity|]. intros Hin. apply H. now right.
Qed.

Lemma replace_at_first (pre post : string) :
  ~ In "@"%char (list_ascii_of_string pre) ->
  Js.replace_at (pre ++ String "@" post) = (pre ++ post)%string.
Proof.
  induction pre as [|c pre IH]; simpl; [reflexivity|].
  intros H. destruct (Ascii.eqb_spec c "@") as [->|Hc].
  - contradiction H. now left.
  - rewrite IH; [reflexivity|]. intros Hin. apply H. now right.
Qed.

Lemma assign_index_lookup (xs : list string) (index : nat) (v : string) :
  (index < length xs)%nat ->
  Page.assign_index index v xs !! index = Some v
  /\ length (Page.assign_index index v xs) = length xs
  /\ forall j, j <> index -> Page.assign_index index v xs !! j = xs !! j.
Proof.
  intros Hlt. unfold Page.assign_index.
  destruct (Nat.eqb_spec index (length xs)) as [E|_]; [lia|].
  split; [now apply list_lookup_insert_eq|].
  split; [apply length_insert|].
  intros j Hj. now apply list_lookup_insert_ne.
Qed.

(** C7, as the code has it.  The stored handle is the input with its first
    [@] removed, wherever it stands, and then trimmed; nothing else is
    changed.  This is the stripping of a leading [@] whenever the input has
    no [@] or begins with one.  [updateHandle] stores that string in the
    slot, and the endpoint validates and returns that same string. *)
Theorem handle_cleaning (value : string) :
  (forall pre post,
      value = (pre ++ String "@" post)%string ->
      ~ In "@"%char (list_ascii_of_string pre) ->
      Route.cleanHandle value = Js.trim (pre ++ post))
  /\ (~ In "@"%char (list_ascii_of_string value) ->
      Route.cleanHandle value = Js.trim value)
  /\ (~ In "@"%char (list_ascii_of_string value)
      \/ (exists rest, value = String "@" rest) ->
      Route.cleanHandle value = HandlerSpec.strip_and_trim value)
  /\ (forall index st,
        (index < length (Page.handles st))%nat ->
        Page.handles (Page.updateHandle index value st) !! index
        = Some (Route.cleanHandle value)
        /\ length (Page.handles (Page.updateHandle index value st))
           = length (Page.handles st)
        /\ forall j, j <> index ->
             Page.handles (Page.updateHandle index value st) !! j
             = Page.handles st !! j)
  /\ (forall world,
        value <> EmptyString ->
        MetricSpec.valid_handle (Route.cleanHandle value) ->
        exists d,
          fst (Route.POST world (Some (Route.JObject [("handle", Route.JString value)])))
          = {| Route.status := 200; Route.body := Route.DataBody d |}
          /\ Route.handle d = Route.cleanHandle value).
Proof.
  split; [|split; [|split; [|split]]].
  - intros pre post -> Hpre. unfold Route.cleanHandle.
    now rewrite replace_at_first.
  - intros H. unfold Route.cleanHandle. now rewrite replace_at_none.
  - intros [H|[rest ->]].
    + unfold Route.cleanHandle, HandlerSpec.strip_and_trim.
      rewrite replace_at_none by exact H.
      destruct value as [|c rest]; [reflexivity|].
      destruct (Ascii.eqb_spec c "@") as [->|Hc].
      * contradiction H. now left.
      * unfold HandlerSpec.strip_leading_at.
        destruct c as [[|] [|] [|] [|] [|] [|] [|] [|]];
          first [reflexivity | now contradiction Hc].
    + reflexivity.
  - intros index st Hlt. unfold Page.updateHandle. simpl.
    now apply assign_index_lookup.
  - intros world Hne Hv.
    exists (fst (Route.analyzeInstagramAccount world (Route.cleanHandle value))).
    apply test_handle_re_spec in Hv.
    rewrite (POST_accepts world value Hne Hv). split; [reflexivity|].
    now destruct (analyze_generated world (Route.cleanHandle value)) as [-> _].
Qed.

(** C7 as stated fails: an [@] inside the input is removed too, which
    stripping a leading [@] would keep. *)
Lemma cleaning_removes_inner_at :
  Route.cleanHandle "a@b" <> HandlerSpec.strip_and_trim "a@b"
  /\ Route.cleanHandle "a@b" = "ab"
  /\ HandlerSpec.strip_and_trim "a@b" = "a@b"
  /\ Page.handles (Page.updateHandle 0 "a@b" Page.initial) = ["ab"].
Proof. vm_compute. repeat split; discriminate. Qed.

Lemma filter_indexed_delete {A : Type} (xs : list A) (k index : nat) :
  Page.filter_indexed (fun _ i => negb (i =? k + index)%nat) k xs
  = delete index xs.
Proof.
  revert k index. induction xs as [|x xs IH]; intros k index; [reflexivity|].
  simpl. destruct index as [|index].
  - replace (k + 0)%nat with k by lia. rewrite Nat.eqb_refl. simpl.
    clear IH. revert k.
    assert (H : forall j k, (k < j)%nat ->
              Page.filter_indexed (fun _ i => negb (i =? k)%nat) j xs = xs).
    { induction xs as [|y ys IHy]; intros j k Hlt; [reflexivity|].
      simpl. destruct (Nat.eqb_spec j k); [lia|]. simpl.
      rewrite IHy by lia. reflexivity. }
    intros k. apply H. lia.
  - destruct (Nat.eqb_spec k (k + S index)); [lia|]. simpl.
    replace (k + S index)%nat with (S k + index)%nat by lia.
    now rewrite IH.
Qed.

(** C8.  Whatever the list and the index, [removeHandleInput] leaves a list
    that is not empty: the list without the entry at the index, or one empty
    entry when nothing would be left.  In particular removing the only slot
    leaves exactly one empty slot.  The other cells of the state stay. *)
Theorem removeHandleInput_keeps_a_slot (index : nat) (st : Page.state) :
  let after := Page.removeHandleInput index st in
  Page.handles after <> []
  /\ Page.handles after
     = match delete index (Page.handles st) with
       | [] => [EmptyString]
       | remaining => remaining
       end
  /\ (forall only, Page.handles st = [only] -> index = 0%nat ->
        Page.handles after = [EmptyString])
  /\ (1 <= length (Page.handles after))%nat
  /\ Page.results after = Page.results st
  /\ Page.loading after = Page.loading st
  /\ Page.sortConfig after = Page.sortConfig st.
Proof.
  cbv zeta. unfold Page.removeHandleInput. simpl.
  pose proof (filter_indexed_delete (Page.handles st) 0 index) as Hd.
  simpl in Hd. rewrite Hd.
  destruct (delete index (Page.handles st)) as [|h rest] eqn:E; simpl.
  - repeat split; try discriminate; try lia.
  - repeat split; try discriminate; try lia.
    intros only Hst ->. rewrite Hst in E. discriminate.
Qed.
(** ** The sign of a difference of doubles *)

Lemma sign_of_double_spec (d : float) :
  Page.sign_of_double d = sign_of_spec (Prim2SF d).
Proof.
  unfold Page.sign_of_double. rewrite !ltb_spec.
  change (Prim2SF 0) with (S754_zero false).
  destruct (Prim2SF d) as [[|]|[|]| |[|] m e]; reflexivity.
Qed.

Lemma digits2_pos_lower (p : positive) :
  2 ^ (Zpos (digits2_pos p) - 1) <= Zpos p.
Proof.
  induction p as [p IH|p IH|]; cbn [digits2_pos]; [| |simpl; lia].
  - rewrite Pos2Z.inj_succ.
    replace (Z.succ (Zpos (digits2_pos p)) - 1)
      with (Z.succ (Zpos (digits2_pos p) - 1)) by lia.
    rewrite Z.pow_succ_r by lia. lia.
  - rewrite Pos2Z.inj_succ.
    replace (Z.succ (Zpos (digits2_pos p)) - 1)
      with (Z.succ (Zpos (digits2_pos p) - 1)) by lia.
    rewrite Z.pow_succ_r by lia. lia.
Qed.

Lemma shr_1_half (mrs : shr_record) :
  0 <= shr_m mrs -> shr_m (shr_1 mrs) = shr_m mrs / 2.
Proof.
  destruct mrs as [m r s]. cbn [shr_m]. intros Hm.
  destruct m as [|[p|p|]|p]; cbn [shr_1 shr_m]; try lia.
  - reflexivity.
  - rewrite Pos2Z.inj_xI. apply Z.div_unique with (r := 1); lia.
  - rewrite Pos2Z.inj_xO. apply Z.div_unique with (r := 0); lia.
  - reflexivity.
Qed.

Lemma iter_shr_1_div (p : positive) (mrs : shr_record) :
  0 <= shr_m mrs ->
  shr_m (SpecFloat.iter_pos shr_1 p mrs) = shr_m mrs / 2 ^ Zpos p.
Proof.
  revert mrs. induction p as [p IH|p IH|]; intros mrs Hm; cbn [SpecFloat.iter_pos].
  - assert (H1 : 0 <= shr_m (shr_1 mrs)).
    { rewrite shr_1_half by exact Hm. apply Z.div_pos; lia. }
    assert (H2 : 0 <= shr_m (SpecFloat.iter_pos shr_1 p (shr_1 mrs))).
    { rewrite IH by exact H1. apply Z.div_pos; [exact H1|]. apply Z.pow_pos_nonneg; lia. }
    rewrite IH by exact H2. rewrite IH by exact H1. rewrite shr_1_half by exact Hm.
    assert (Hp : 0 < 2 ^ Zpos p) by (apply Z.pow_pos_nonneg; lia).
    rewrite !Z.div_div by lia.
    f_equal. replace (Zpos p~1) with (1 + (Zpos p + Zpos p)) by lia.
    rewrite !Z.pow_add_r by lia. change (2 ^ 1) with 2. ring.
  - assert (H2 : 0 <= shr_m (SpecFloat.iter_pos shr_1 p mrs)).
    { rewrite IH by exact Hm. apply Z.div_pos; [exact Hm|]. apply Z.pow_pos_nonneg; lia. }
    rewrite IH by exact H2. rewrite IH by exact Hm.
    assert (Hp : 0 < 2 ^ Zpos p) by (apply Z.pow_pos_nonneg; lia).
    rewrite !Z.div_div by lia.
    f_equal. replace (Zpos p~0) with (Zpos p + Zpos p) by lia.
    rewrite Z.pow_add_r by lia. ring.
  - rewrite shr_1_half by exact Hm. reflexivity.
Qed.

Lemma shr_record_of_loc_m (m : Z) (l : location) :
  shr_m (shr_record_of_loc m l) = m.
Proof. destruct l as [|[| |]]; reflexivity. Qed.

(** Rounding to binary64 keeps a positive mantissa positive, as long as
    the exponent is not below the least one. *)
Lemma shr_fexp_positive (m : positive) (e : Z) (l : location) :
  -1074 <= e ->
  0 < shr_m (fst (shr_fexp prec emax (Zpos m) e l))
  /\ -1074 <= snd (shr_fexp prec emax (Zpos m) e l).
Proof.
  intros He. unfold shr_fexp, shr, fexp, emin, Zdigits2, prec, emax.
  pose proof (digits2_pos_lower m) as Hd.
  set (d := Zpos (digits2_pos m)) in *.
  destruct (Z.max (d + e - 53) (3 - 1024 - 53) - e) as [|n|n] eqn:En;
    cbn [fst snd]; rewrite ?shr_record_of_loc_m; try (split; lia).
  rewrite iter_shr_1_div by (rewrite shr_record_of_loc_m; lia).
  rewrite shr_record_of_loc_m.
  assert (Hn : Zpos n = d - 53) by lia.
  split; [|lia].
  apply Z.div_str_pos. split; [apply Z.pow_pos_nonneg; lia|].
  etransitivity; [|exact Hd].
  apply Z.pow_le_mono_r; lia.
Qed.

Lemma round_nearest_even_positive (m : Z) (l : location) :
  0 < m -> 0 < round_nearest_even m l.
Proof.
  intros Hm. destruct l as [|[| |]]; cbn [round_nearest_even]; try lia.
  destruct (Z.even m); lia.
Qed.

Lemma binary_round_aux_sign (s : bool) (m : positive) (e : Z) (l : location) :
  -1074 <= e ->
  sign_of_spec (binary_round_aux prec emax s (Zpos m) e l) = if s then Lt else Gt.
Proof.
  intros He. unfold binary_round_aux.
  destruct (shr_fexp_positive m e l He) as [H1 H1e].
  destruct (shr_fexp prec emax (Zpos m) e l) as [mrs' e']. cbn [fst snd] in *.
  pose proof (round_nearest_even_positive _ (loc_of_shr_record mrs') H1) as H2.
  destruct (round_nearest_even (shr_m mrs') (loc_of_shr_record mrs')) as [|m2|m2];
    try lia.
  destruct (shr_fexp_positive m2 e' loc_Exact H1e) as [H3 _].
  destruct (shr_fexp prec emax (Zpos m2) e' loc_Exact) as [mrs'' e'']. cbn [fst snd] in *.
  destruct (shr_m mrs'') as [|m3|m3]; try lia.
  destruct (e'' <=? emax - prec); destruct s; reflexivity.
Qed.

Lemma binary_round_sign (s : bool) (m : positive) (e : Z) :
  -1074 <= e ->
  sign_of_spec (binary_round prec emax s m e) = if s then Lt else Gt.
Proof.
  intros He. unfold binary_round.
  assert (Hf : -1074 <= fexp prec emax (Zpos (digits2_pos m) + e)).
  { unfold fexp, emin, prec, emax. lia. }
  unfold shl_align.
  destruct (fexp prec emax (Zpos (digits2_pos m) + e) - e);
    now apply binary_round_aux_sign.
Qed.

Lemma binary_normalize_sign (D e : Z) :
  -1074 <= e ->
  sign_of_spec (binary_normalize prec emax D e false) = Z.compare D 0.
Proof.
  intros He. destruct D as [|p|p]; cbn [binary_normalize].
  - reflexivity.
  - now rewrite binary_round_sign.
  - now rewrite binary_round_sign.
Qed.

Lemma valid_exponent (s : bool) (m : positive) (e : Z) :
  valid_binary (S754_finite s m e) = true -> -1074 <= e.
Proof.
  cbn [SpecFloat.valid_binary]. unfold bounded, canonical_mantissa, fexp, emin, prec, emax.
  intros H. apply andb_prop in H as [H _]. apply Z.eqb_eq in H. lia.
Qed.

Lemma iter_xO_value (m d : positive) :
  Zpos (Pos.iter xO m d) = Zpos m * 2 ^ Zpos d.
Proof.
  induction d as [|d IH] using Pos.peano_ind.
  - cbn [Pos.iter]. lia.
  - rewrite Pos.iter_succ, Pos2Z.inj_xO, IH, Pos2Z.inj_succ, Z.pow_succ_r by lia. ring.
Qed.

Lemma shl_align_value (m : positive) (e ez : Z) :
  ez <= e -> Zpos (fst (shl_align m e ez)) = Zpos m * 2 ^ (e - ez).
Proof.
  intros H. unfold shl_align.
  destruct (ez - e) as [|d|d] eqn:Ed; cbn [fst]; try lia.
  - replace (e - ez) with 0 by lia. lia.
  - replace (e - ez) with (Zpos d) by lia.
    apply iter_xO_value.
Qed.

Lemma two_power_positive (e : Z) : (0 < Qpower (2 # 1) e)%Q.
Proof. apply Qpower_0_lt. reflexivity. Qed.

Lemma Qcompare_scaled (a b : Z) (c : Q) :
  (0 < c)%Q -> Qcompare (inject_Z a * c) (inject_Z b * c) = Z.compare a b.
Proof.
  intros Hc.
  destruct (Z.compare_spec a b) as [E|L|G].
  - subst. apply Qeq_alt. reflexivity.
  - apply Qlt_alt. apply Qmult_lt_compat_r; [exact Hc|]. now rewrite <- Zlt_Qlt.
  - apply Qgt_alt. apply Qmult_lt_compat_r; [exact Hc|]. now rewrite <- Zlt_Qlt.
Qed.

Lemma aligned_value (s : bool) (m : positive) (e ez : Z) :
  ez <= e ->
  (inject_Z (SortSpec.signed s m) * Qpower (2 # 1) e
   == inject_Z (cond_Zopp s (Zpos (fst (shl_align m e ez)))) * Qpower (2 # 1) ez)%Q.
Proof.
  intros H. rewrite shl_align_value by exact H.
  replace (cond_Zopp s (Zpos m * 2 ^ (e - ez)))
    with (SortSpec.signed s m * 2 ^ (e - ez))
    by (destruct s; unfold SortSpec.signed, cond_Zopp; lia).
  rewrite inject_Z_mult.
  rewrite (Zpower_Qpower 2 (e - ez)) by lia.
  change (inject_Z 2) with (2 # 1).
  rewrite <- Qmult_assoc, <- Qpower_plus by discriminate.
  now replace (e - ez + ez) with e by lia.
Qed.

Lemma signed_value_sign (s : bool) (m : positive) (e : Z) :
  Qcompare (inject_Z (SortSpec.signed s m) * Qpower (2 # 1) e) 0
  = (if s then Lt else Gt)
  /\ Qcompare 0 (inject_Z (SortSpec.signed s m) * Qpower (2 # 1) e)
     = (if s then Gt else Lt).
Proof.
  pose proof (Qcompare_scaled (SortSpec.signed s m) 0 _ (two_power_positive e)) as H1.
  pose proof (Qcompare_scaled 0 (SortSpec.signed s m) _ (two_power_positive e)) as H2.
  assert (E : (inject_Z 0 * Qpower (2 # 1) e == 0)%Q) by apply Qmult_0_l.
  rewrite E in H1, H2. rewrite H1, H2. now destruct s.
Qed.

(** The sign of a difference is the order of the two values. *)
Lemma SF64sub_sign (a b : spec_float) :
  valid_binary a = true -> valid_binary b = true ->
  a <> S754_nan -> b <> S754_nan ->
  sign_of_spec (SF64sub a b)
  = SortSpec.numerically (SortSpec.spec_value a) (SortSpec.spec_value b).
Proof.
  intros Va Vb Na Nb.
  destruct a as [sa|sa| |sa ma ea]; [| |now contradiction Na|];
    (destruct b as [sb|sb| |sb mb eb]; [| |now contradiction Nb|]).
  all: try (destruct sa, sb; reflexivity).
  - cbn [SF64sub SFsub SortSpec.spec_value SortSpec.numerically sign_of_spec].
    rewrite (proj2 (signed_value_sign sb mb eb)). now destruct sb.
  - cbn [SF64sub SFsub SortSpec.spec_value SortSpec.numerically sign_of_spec].
    rewrite (proj1 (signed_value_sign sa ma ea)). now destruct sa.
  - apply valid_exponent in Va, Vb.
    cbn [SF64sub SFsub SortSpec.spec_value SortSpec.numerically]. cbv zeta.
    rewrite binary_normalize_sign by lia.
    rewrite (aligned_value sa ma ea (Z.min ea eb)) by lia.
    rewrite (aligned_value sb mb eb (Z.min ea eb)) by lia.
    rewrite Qcompare_scaled by apply two_power_positive.
    symmetry. apply Z.compare_sub.
Qed.

Lemma sign_of_difference (x y : float) :
  SortSpec.is_NaN x = false -> SortSpec.is_NaN y = false ->
  Page.sign_of_double (x - y)
  = SortSpec.numerically (SortSpec.double_value x) (SortSpec.double_value y).
Proof.
  unfold SortSpec.is_NaN, SortSpec.double_value. intros Hx Hy.
  rewrite sign_of_double_spec, sub_spec.
  apply SF64sub_sign; try apply Prim2SF_valid.
  - intros E. now rewrite E in Hx.
  - intros E. now rewrite E in Hy.
Qed.

Lemma numerically_antisym (a b : SortSpec.number) :
  SortSpec.numerically a b = CompOpp (SortSpec.numerically b a).
Proof.
  destruct a, b; simpl; try reflexivity. symmetry. apply Qcompare_antisym.
Qed.

Lemma numerically_rank (a b : SortSpec.number) :
  SortSpec.numerically a b <> Gt -> SortSpec.rank a <= SortSpec.rank b.
Proof.
  destruct a, b; simpl; intros H; try lia; now contradiction H.
Qed.

Lemma numerically_trans (a b c : SortSpec.number) :
  SortSpec.numerically a b <> Gt -> SortSpec.numerically b c <> Gt ->
  SortSpec.numerically a c <> Gt.
Proof.
  intros H1 H2.
  pose proof (numerically_rank a b H1) as R1.
  pose proof (numerically_rank b c H2) as R2.
  destruct a as [| |p|], c as [| |r|]; simpl in *; try discriminate; try lia.
  destruct b as [| |q|]; simpl in *; try lia.
  revert H1 H2. rewrite <- !Qle_alt. apply Qle_trans.
Qed.


(** ** [Array_sort] under a consistent comparator *)

Section Sorting.

Context {A : Type} (c : A -> A -> comparison).

(** A consistent comparator: swapping the arguments flips the sign, and
    "not after" is transitive. *)
Hypothesis c_antisym : forall a b, c a b = CompOpp (c b a).
Hypothesis c_trans : forall a b d, c a b <> Gt -> c b d <> Gt -> c a d <> Gt.

Local Abbreviation not_after := (SortSpec.not_after c).
Local Abbreviation tied := (SortSpec.tied c).

Lemma sort_insert_perm (x : A) (l : list A) :
  Permutation (x :: l) (Page.sort_insert c x l).
Proof using Type.
  induction l as [|y l IH]; simpl; [reflexivity|].
  destruct (c x y); try reflexivity.
  rewrite perm_swap. now apply perm_skip.
Qed.

Lemma Array_sort_perm (l : list A) : Permutation l (Page.Array_sort c l).
Proof using Type.
  induction l as [|x l IH]; simpl; [reflexivity|].
  rewrite <- sort_insert_perm. now apply perm_skip.
Qed.

Lemma tied_not_after (x a y : A) :
  tied x a = true -> tied x y = true -> c a y <> Gt.
Proof using c_antisym c_trans.
  unfold SortSpec.tied. intros Ha Hy.
  destruct (c x a) eqn:Exa; try discriminate.
  destruct (c x y) eqn:Exy; try discriminate.
  apply c_trans with (b := x).
  - rewrite c_antisym, Exa. discriminate.
  - rewrite Exy. discriminate.
Qed.

Lemma sort_insert_sorted (x : A) (l : list A) :
  StronglySorted not_after l -> StronglySorted not_after (Page.sort_insert c x l).
Proof using c_antisym c_trans.
  induction 1 as [|y l Hs IH Hy]; simpl.
  - constructor; constructor.
  - destruct (c x y) eqn:E.
    + constructor; [now constructor|]. constructor.
      * unfold SortSpec.not_after. rewrite E. discriminate.
      * eapply List.Forall_impl; [|exact Hy]. intros z Hz.
        apply c_trans with (b := y); [rewrite E; discriminate | exact Hz].
    + constructor; [now constructor|]. constructor.
      * unfold SortSpec.not_after. rewrite E. discriminate.
      * eapply List.Forall_impl; [|exact Hy]. intros z Hz.
        apply c_trans with (b := y); [rewrite E; discriminate | exact Hz].
    + constructor; [exact IH|].
      eapply Permutation_Forall; [apply sort_insert_perm|].
      constructor; [|exact Hy].
      unfold SortSpec.not_after. rewrite c_antisym, E. discriminate.
Qed.

Lemma Array_sort_sorted (l : list A) :
  StronglySorted not_after (Page.Array_sort c l).
Proof using c_antisym c_trans.
  induction l as [|x l IH]; simpl; [constructor|].
  now apply sort_insert_sorted.
Qed.

Lemma sort_insert_stable (x a : A) (l : list A) :
  List.filter (tied x) (Page.sort_insert c a l) = List.filter (tied x) (a :: l).
Proof using c_antisym c_trans.
  induction l as [|y l IH]; [reflexivity|].
  simpl Page.sort_insert. destruct (c a y) eqn:E; try reflexivity.
  simpl. simpl in IH. rewrite IH.
  destruct (tied x a) eqn:Ta, (tied x y) eqn:Ty; try reflexivity.
  now destruct (tied_not_after x a y Ta Ty).
Qed.

Lemma Array_sort_stable (x : A) (l : list A) :
  List.filter (tied x) (Page.Array_sort c l) = List.filter (tied x) l.
Proof using c_antisym c_trans.
  induction l as [|a l IH]; [reflexivity|].
  simpl Page.Array_sort. rewrite sort_insert_stable. simpl. now rewrite IH.
Qed.

(** Two sorted arrangements of the same rows that keep every class of tied
    rows in the same order are the same list. *)
Lemma stable_arrangement_unique (l1 l2 : list A) :
  Permutation l1 l2 ->
  StronglySorted not_after l1 -> StronglySorted not_after l2 ->
  (forall x, List.filter (tied x) l1 = List.filter (tied x) l2) ->
  l1 = l2.
Proof using c_antisym c_trans.
  revert l2. induction l1 as [|a l1 IH]; intros l2 Hp H1 H2 Hf.
  - now apply Permutation_nil in Hp.
  - destruct l2 as [|b l2].
    { apply Permutation_sym, Permutation_nil in Hp. discriminate. }
    apply StronglySorted_inv in H1 as [H1 Ha].
    apply StronglySorted_inv in H2 as [H2 Hb].
    assert (Haa : c a a = Eq).
    { pose proof (c_antisym a a) as H. destruct (c a a); simpl in H; congruence. }
    assert (Hab : c a b <> Gt).
    { assert (Hin : In b (a :: l1)).
      { eapply Permutation_in; [apply Permutation_sym, Hp | now left]. }
      destruct Hin as [->|Hin]; [now rewrite Haa|].
      rewrite List.Forall_forall in Ha. now apply Ha. }
    assert (Hba : c b a <> Gt).
    { assert (Hin : In a (b :: l2)).
      { eapply Permutation_in; [apply Hp | now left]. }
      destruct Hin as [->|Hin]; [now rewrite Haa|].
      rewrite List.Forall_forall in Hb. now apply Hb. }
    assert (Tab : tied a b = true).
    { unfold SortSpec.tied.
      destruct (c a b) eqn:E1; [reflexivity| |now contradiction Hab].
      rewrite (c_antisym b a), E1 in Hba. now contradiction Hba. }
    pose proof (Hf a) as Hfa. simpl in Hfa.
    unfold SortSpec.tied at 1 in Hfa. rewrite Haa in Hfa. rewrite Tab in Hfa.
    injection Hfa as <- _.
    f_equal. apply IH; try assumption.
    + now apply Permutation_cons_inv in Hp.
    + intros x. specialize (Hf x). simpl in Hf.
      destruct (tied x a); [now injection Hf | exact Hf].
Qed.

Lemma Array_sort_is_stable_sort (l : list A) :
  SortSpec.stable_sort_of c l (Page.Array_sort c l).
Proof using c_antisym c_trans.
  split; [apply Array_sort_perm|].
  split; [apply Array_sort_sorted|].
  intros x. apply Array_sort_stable.
Qed.

Lemma stable_sort_unique (l out : list A) :
  SortSpec.stable_sort_of c l out -> out = Page.Array_sort c l.
Proof using c_antisym c_trans.
  intros (Hp & Hs & Hf).
  apply stable_arrangement_unique.
  - rewrite <- Hp. apply Array_sort_perm.
  - exact Hs.
  - apply Array_sort_sorted.
  - intros x. now rewrite Hf, Array_sort_stable.
Qed.

End Sorting.

(** The result of [Array_sort] only depends on the comparator through the
    pairs of elements of the list. *)
Lemma sort_insert_ext {A : Type} (c c' : A -> A -> comparison) (x : A) (l : list A) :
  (forall y, In y l -> c x y = c' x y) ->
  Page.sort_insert c x l = Page.sort_insert c' x l.
Proof.
  induction l as [|y l IH]; intros H; [reflexivity|]. simpl.
  rewrite <- (H y) by now left.
  destruct (c x y); try reflexivity.
  f_equal. apply IH. intros z Hz. apply H. now right.
Qed.

Lemma Array_sort_ext {A : Type} (c c' : A -> A -> comparison) (l : list A) :
  (forall a b, In a l -> In b l -> c a b = c' a b) ->
  Page.Array_sort c l = Page.Array_sort c' l.
Proof.
  induction l as [|x l IH]; intros H; [reflexivity|]. simpl.
  rewrite IH by (intros a b Ha Hb; apply H; now right).
  apply sort_insert_ext. intros y Hy. apply H; [now left|].
  right. eapply Permutation_in; [apply Permutation_sym, Array_sort_perm | exact Hy].
Qed.

(** ** The comparator of [getSortedResults] *)

Lemma string_compare_trans (a b d : string) :
  String.compare a b <> Gt -> String.compare b d <> Gt -> String.compare a d <> Gt.
Proof.
  revert b d. induction a as [|x a IH]; intros [|y b] [|z d]; simpl;
    try congruence.
  unfold Ascii.compare.
  destruct (N.compare_spec (N_of_ascii x) (N_of_ascii y)) as [Exy|Lxy|Gxy];
    destruct (N.compare_spec (N_of_ascii y) (N_of_ascii z)) as [Eyz|Lyz|Gyz];
    destruct (N.compare_spec (N_of_ascii x) (N_of_ascii z)) as [Exz|Lxz|Gxz];
    try congruence; try lia.
  apply IH.
Qed.

Lemma Zcompare_trans (x y z : Z) :
  Z.compare x y <> Gt -> Z.compare y z <> Gt -> Z.compare x z <> Gt.
Proof.
  rewrite !Z.compare_le_iff. lia.
Qed.

Lemma ascending_antisym (k : Page.key) (a b : Page.InstagramData) :
  SortSpec.ascending k a b = CompOpp (SortSpec.ascending k b a).
Proof.
  destruct k; simpl; unfold SortSpec.caseless;
    first [ apply Z.compare_antisym
          | apply numerically_antisym
          | apply String.compare_antisym ].
Qed.

Lemma ascending_trans (k : Page.key) (a b d : Page.InstagramData) :
  SortSpec.ascending k a b <> Gt -> SortSpec.ascending k b d <> Gt ->
  SortSpec.ascending k a d <> Gt.
Proof.
  destruct k; simpl; unfold SortSpec.caseless;
    first [ apply Zcompare_trans | apply numerically_trans | apply string_compare_trans ].
Qed.

Lemma compare_antisym (k : Page.key) (d : Page.direction) (a b : Page.InstagramData) :
  SortSpec.compare k d a b = CompOpp (SortSpec.compare k d b a).
Proof. destruct d; simpl; apply ascending_antisym. Qed.

Lemma compare_trans (k : Page.key) (d : Page.direction) (a b e : Page.InstagramData) :
  SortSpec.compare k d a b <> Gt -> SortSpec.compare k d b e <> Gt ->
  SortSpec.compare k d a e <> Gt.
Proof.
  destruct d; simpl; intros H1 H2.
  - now apply ascending_trans with (b := b).
  - now apply ascending_trans with (b := b).
Qed.

Lemma byInteger_compare (d : Page.direction) (x y : Z) :
  Page.byInteger d x y = match d with
                         | Page.Asc => Z.compare x y
                         | Page.Desc => Z.compare y x
                         end.
Proof.
  destruct d; simpl; symmetry; apply Z.compare_sub.
Qed.

Lemma byString_compare (d : Page.direction) (s t : string) :
  Page.byString d s t = match d with
                        | Page.Asc => SortSpec.caseless s t
                        | Page.Desc => SortSpec.caseless t s
                        end.
Proof.
  unfold Page.byString, SortSpec.caseless, String.ltb.
  rewrite (String.compare_antisym (Js.toLowerCase t) (Js.toLowerCase s)).
  destruct (String.compare (Js.toLowerCase s) (Js.toLowerCase t)), d; reflexivity.
Qed.

Lemma byDouble_compare (d : Page.direction) (x y : float) :
  SortSpec.is_NaN x = false -> SortSpec.is_NaN y = false ->
  Page.byDouble d x y
  = match d with
    | Page.Asc =>
        SortSpec.numerically (SortSpec.double_value x) (SortSpec.double_value y)
    | Page.Desc =>
        SortSpec.numerically (SortSpec.double_value y) (SortSpec.double_value x)
    end.
Proof.
  intros Hx Hy. destruct d; simpl; now apply sign_of_difference.
Qed.

(** On rows whose rates are numbers, the callback is the comparator of the
    specification; by any other key it is so on all rows. *)
Lemma compareRows_spec (k : Page.key) (d : Page.direction) (a b : Page.InstagramData) :
  (k = Page.KengagementRate ->
   SortSpec.is_NaN (Page.engagementRate a) = false
   /\ SortSpec.is_NaN (Page.engagementRate b) = false) ->
  Page.compareRows k d a b = SortSpec.compare k d a b.
Proof.
  intros H.
  destruct k; simpl;
    first [ rewrite byInteger_compare | rewrite byString_compare
          | rewrite byDouble_compare by now apply H ];
    destruct d; reflexivity.
Qed.

Lemma Array_sort_compareRows (k : Page.key) (d : Page.direction)
  (rows : list Page.InstagramData) :
  (k = Page.KengagementRate -> SortSpec.rates_are_numbers rows) ->
  Page.Array_sort (Page.compareRows k d) rows
  = Page.Array_sort (SortSpec.compare k d) rows.
Proof.
  intros Hr. apply Array_sort_ext. intros a b Ha Hb.
  apply compareRows_spec. intros Hk. specialize (Hr Hk).
  unfold SortSpec.rates_are_numbers in Hr. rewrite List.Forall_forall in Hr.
  split; now apply Hr.
Qed.

Lemma endpoint_rates_numbers :
  forallb (fun x => negb (SortSpec.is_NaN x)) SortSpec.endpoint_rates = true.
Proof. vm_compute. reflexivity. Qed.

Lemma rates_known_numbers (rows : list Page.InstagramData) :
  SortSpec.rates_known rows -> SortSpec.rates_are_numbers rows.
Proof.
  apply List.Forall_impl. intros r Hr.
  pose proof (proj1 (forallb_forall _ _) endpoint_rates_numbers _ Hr) as H.
  now apply negb_true_iff in H.
Qed.

(** C5.  With a sort key and direction set, [getSortedResults] is the stable
    sort of the stored rows under the comparator of the specification: the
    same rows, each not after the next, rows that compare equal in their
    stored order; no other list is.  The callback the code passes is that
    comparator, and by the handle key "Zeta" comes after "alpha".  By the
    rate the rows are taken to hold numbers, finite or infinite, which is
    all a JSON answer can give them; by the other keys nothing is asked of
    the rows. *)
Theorem getSortedResults_stable_sort (k : Page.key) (d : Page.direction)
  (st : Page.state) :
  Page.sortConfig st = Some (k, d) ->
  (k = Page.KengagementRate -> SortSpec.rates_are_numbers (Page.results st)) ->
  SortSpec.stable_sort_of (SortSpec.compare k d) (Page.results st)
    (Page.getSortedResults st)
  /\ (forall out,
        SortSpec.stable_sort_of (SortSpec.compare k d) (Page.results st) out ->
        out = Page.getSortedResults st)
  /\ (forall a b, In a (Page.results st) -> In b (Page.results st) ->
        Page.compareRows k d a b = SortSpec.compare k d a b)
  /\ (forall a b,
        Page.handle a = "Zeta" -> Page.handle b = "alpha" ->
        Page.compareRows Page.Khandle Page.Asc a b = Gt).
Proof.
  intros Hcfg Hr. unfold Page.getSortedResults. rewrite Hcfg.
  rewrite Array_sort_compareRows by exact Hr.
  split; [|split; [|split]].
  - apply Array_sort_is_stable_sort.
    + apply compare_antisym.
    + apply compare_trans.
  - intros out Hout. apply stable_sort_unique; try assumption.
    + apply compare_antisym.
    + apply compare_trans.
  - intros a b Ha Hb. apply compareRows_spec. intros Hk. specialize (Hr Hk).
    unfold SortSpec.rates_are_numbers in Hr. rewrite List.Forall_forall in Hr.
    split; now apply Hr.
  - intros a b Ha Hb. simpl. now rewrite Ha, Hb.
Qed.

Lemma getSortedResults_stable_sort_witness :
  let test :=
    Page.successRow (fst (Route.analyzeInstagramAccount Route.FetchFailed "test")) in
  let nasa :=
    Page.successRow (fst (Route.analyzeInstagramAccount Route.FetchFailed "nasa")) in
  let failed := Page.errorRow "bad handle!" "Invalid handle format" in
  let st := {| Page.handles := [""];
               Page.results := [test; failed; nasa];
               Page.loading := false;
               Page.sortConfig := Some (Page.KengagementRate, Page.Asc) |} in
  Page.sortConfig st = Some (Page.KengagementRate, Page.Asc)
  /\ SortSpec.rates_are_numbers (Page.results st)
  /\ map Page.engagementRate (Page.results st) = [6.3; 0; 3.4]%float
  /\ SortSpec.stable_sort_of (SortSpec.compare Page.KengagementRate Page.Asc)
       (Page.results st) (Page.getSortedResults st)
  /\ Page.getSortedResults st = [failed; nasa; test].
Proof.
  cbv zeta.
  set (rows := [Page.successRow (fst (Route.analyzeInstagramAccount Route.FetchFailed "test"));
                Page.errorRow "bad handle!" "Invalid handle format";
                Page.successRow (fst (Route.analyzeInstagramAccount Route.FetchFailed "nasa"))]).
  assert (Hr : SortSpec.rates_are_numbers rows) by (repeat constructor).
  split; [reflexivity|]. split; [exact Hr|]. split; [reflexivity|].
  split; [|reflexivity].
  exact (proj1 (getSortedResults_stable_sort Page.KengagementRate Page.Asc
                  {| Page.handles := [""];
                     Page.results := rows;
                     Page.loading := false;
                     Page.sortConfig := Some (Page.KengagementRate, Page.Asc) |}
                  eq_refl (fun _ => Hr))).
Defined.

(** ** Ascending and descending by followers *)

Lemma StronglySorted_snoc {A : Type} (R : A -> A -> Prop) (l : list A) (a : A) :
  StronglySorted R l -> Forall (fun x => R x a) l -> StronglySorted R (l ++ [a]).
Proof.
  induction 1 as [|x l Hs IH Hx]; intros Ha; simpl.
  - constructor; constructor.
  - apply List.Forall_cons_iff in Ha as [Hxa Hla].
    constructor; [now apply IH|].
    apply List.Forall_app. split; [exact Hx | now constructor].
Qed.

Lemma StronglySorted_rev {A : Type} (R : A -> A -> Prop) (l : list A) :
  StronglySorted R l -> StronglySorted (fun a b => R b a) (rev l).
Proof.
  induction 1 as [|x l Hs IH Hx]; simpl; [constructor|].
  apply StronglySorted_snoc; [exact IH|].
  apply List.Forall_rev. exact Hx.
Qed.

Lemma filter_Permutation {A : Type} (p : A -> bool) (l l' : list A) :
  Permutation l l' -> Permutation (List.filter p l) (List.filter p l').
Proof.
  induction 1 as [|x l l' Hp IH|x y l|l l' l'' H1 IH1 H2 IH2]; simpl.
  - constructor.
  - destruct (p x); [now constructor | exact IH].
  - destruct (p x), (p y); try reflexivity. apply perm_swap.
  - now transitivity (List.filter p l').
Qed.

Lemma filter_unique_key (rows : list Page.InstagramData) (v : Z) :
  List.NoDup (map Page.followers rows) ->
  (length (List.filter (fun r => (Page.followers r =? v)%Z) rows) <= 1)%nat.
Proof.
  induction rows as [|r rows IH]; simpl; [lia|].
  intros Hnd. apply NoDup_cons_iff in Hnd as [Hnot Hnd].
  destruct (Z.eqb_spec (Page.followers r) v) as [E|_]; [|now apply IH].
  simpl. assert (Hnil : List.filter (fun r => Page.followers r =? v) rows = []).
  { destruct (List.filter (fun r => Page.followers r =? v) rows) as [|r' rest] eqn:Ef;
      [reflexivity|].
    assert (Hin : In r' (List.filter (fun r => Page.followers r =? v) rows))
      by (rewrite Ef; now left).
    apply List.filter_In in Hin as [Hin Hv]. apply Z.eqb_eq in Hv.
    contradiction Hnot. rewrite E, <- Hv. now apply in_map. }
  rewrite Hnil. simpl. lia.
Qed.

Lemma short_Permutation_eq {A : Type} (l l' : list A) :
  (length l <= 1)%nat -> Permutation l l' -> l = l'.
Proof.
  intros Hlen Hp. destruct l as [|a [|b l]]; simpl in Hlen; try lia.
  - now apply Permutation_nil in Hp.
  - now apply Permutation_length_1_inv in Hp.
Qed.

Lemma tied_followers (d : Page.direction) (x r : Page.InstagramData) :
  SortSpec.tied (SortSpec.compare Page.Kfollowers d) x r
  = (Page.followers r =? Page.followers x).
Proof.
  unfold SortSpec.tied. destruct d; simpl.
  - rewrite Z.eqb_sym, Z.eqb_compare. reflexivity.
  - rewrite Z.eqb_compare. reflexivity.
Qed.

Lemma compareRows_followers (d : Page.direction) (a b : Page.InstagramData) :
  Page.compareRows Page.Kfollowers d a b = SortSpec.compare Page.Kfollowers d a b.
Proof. simpl. rewrite byInteger_compare. now destruct d. Qed.

(** When no two rows have the same followers, the descending order is the
    ascending order reversed. *)
Lemma descending_is_reverse (rows : list Page.InstagramData) :
  List.NoDup (map Page.followers rows) ->
  Page.Array_sort (Page.compareRows Page.Kfollowers Page.Desc) rows
  = rev (Page.Array_sort (Page.compareRows Page.Kfollowers Page.Asc) rows).
Proof.
  intros Hnd.
  rewrite (Array_sort_ext (Page.compareRows Page.Kfollowers Page.Desc)
             (SortSpec.compare Page.Kfollowers Page.Desc))
    by (intros; apply compareRows_followers).
  rewrite (Array_sort_ext (Page.compareRows Page.Kfollowers Page.Asc)
             (SortSpec.compare Page.Kfollowers Page.Asc))
    by (intros; apply compareRows_followers).
  symmetry.
  apply (stable_sort_unique (SortSpec.compare Page.Kfollowers Page.Desc)
           (compare_antisym _ _) (compare_trans _ _)).
  pose proof (Array_sort_is_stable_sort (SortSpec.compare Page.Kfollowers Page.Asc)
                (compare_antisym _ _) (compare_trans _ _) rows) as (Hp & Hs & _).
  split; [|split].
  - rewrite Hp at 1. apply Permutation_rev.
  - apply StronglySorted_rev in Hs. exact Hs.
  - intros x.
    rewrite !(List.filter_ext _ _ (tied_followers Page.Desc x)).
    apply short_Permutation_eq.
    + apply filter_unique_key.
      eapply Permutation_NoDup; [|exact Hnd].
      apply Permutation_map. rewrite Hp at 1. apply Permutation_rev.
    + apply filter_Permutation. rewrite <- Permutation_rev. now symmetry.
Qed.

(** In either direction the rows of one followers count are shown in their
    stored order. *)
Lemma followers_ties_kept (d : Page.direction) (rows : list Page.InstagramData)
  (n : Z) :
  List.filter (fun r => Page.followers r =? n)
    (Page.Array_sort (Page.compareRows Page.Kfollowers d) rows)
  = List.filter (fun r => Page.followers r =? n) rows.
Proof.
  rewrite (Array_sort_ext (Page.compareRows Page.Kfollowers d)
             (SortSpec.compare Page.Kfollowers d))
    by (intros; apply compareRows_followers).
  pose (x := {| Page.handle := ""; Page.name := ""; Page.followers := n;
                Page.averageViews := 0; Page.category := "";
                Page.engagementRate := 0%float; Page.location := "";
                Page.status := None; Page.error := None |}).
  pose proof (Array_sort_stable (SortSpec.compare Page.Kfollowers d)
                (compare_antisym _ _) (compare_trans _ _) x rows) as H.
  rewrite !(List.filter_ext _ _ (tied_followers d x)) in H. exact H.
Qed.

(** C6, as the code has it.  Sorting by followers ascending, and then
    toggling the same column to descending, shows the rows in exactly the
    reversed order whenever no two rows have the same followers; this holds
    for three rows as for any number.  Rows with equal followers are shown
    in their stored order, ascending and descending alike. *)
Theorem followers_toggle_reverses (st : Page.state) :
  let ascending := Page.sortData Page.Kfollowers (Page.setSortConfig None st) in
  let descending := Page.sortData Page.Kfollowers ascending in
  Page.sortConfig ascending = Some (Page.Kfollowers, Page.Asc)
  /\ Page.sortConfig descending = Some (Page.Kfollowers, Page.Desc)
  /\ Page.results ascending = Page.results st
  /\ Page.results descending = Page.results st
  /\ (List.NoDup (map Page.followers (Page.results st)) ->
      Page.getSortedResults descending = rev (Page.getSortedResults ascending))
  /\ (forall n,
        List.filter (fun r => Page.followers r =? n) (Page.getSortedResults ascending)
        = List.filter (fun r => Page.followers r =? n) (Page.results st))
  /\ (forall n,
        List.filter (fun r => Page.followers r =? n) (Page.getSortedResults descending)
        = List.filter (fun r => Page.followers r =? n) (Page.results st)).
Proof.
  cbv zeta.
  split; [reflexivity|]. split; [reflexivity|].
  split; [reflexivity|]. split; [reflexivity|].
  unfold Page.getSortedResults. simpl.
  split; [|split].
  - intros Hnd. now apply descending_is_reverse.
  - intros n. apply followers_ties_kept.
  - intros n. apply followers_ties_kept.
Qed.

Lemma followers_toggle_reverses_witness :
  let st := {| Page.handles := [""];
               Page.results :=
                 [Page.successRow (fst (Route.analyzeInstagramAccount Route.FetchFailed "test"));
                  Page.errorRow "bad handle!" "Invalid handle format";
                  Page.successRow (fst (Route.analyzeInstagramAccount Route.FetchFailed "nasa"))];
               Page.loading := false;
               Page.sortConfig := None |} in
  length (Page.results st) = 3%nat
  /\ List.NoDup (map Page.followers (Page.results st))
  /\ Page.getSortedResults (Page.sortData Page.Kfollowers (Page.sortData Page.Kfollowers st))
     = rev (Page.getSortedResults (Page.sortData Page.Kfollowers st)).
Proof.
  cbv zeta.
  assert (Hnd : List.NoDup [71336; 0; 66783]).
  { repeat constructor; simpl; intuition discriminate. }
  split; [reflexivity|]. split; [exact Hnd|].
  exact (proj1 (proj2 (proj2 (proj2 (proj2
           (followers_toggle_reverses
              {| Page.handles := [""];
                 Page.results :=
                   [Page.successRow (fst (Route.analyzeInstagramAccount Route.FetchFailed "test"));
                    Page.errorRow "bad handle!" "Invalid handle format";
                    Page.successRow (fst (Route.analyzeInstagramAccount Route.FetchFailed "nasa"))];
                 Page.loading := false;
                 Page.sortConfig := None |}))))) Hnd).
Defined.

(** C6 as stated fails: with two rows of equal followers (two failed rows,
    both at 0) the descending order keeps them in their stored order, which
    the reversed ascending order does not. *)
Lemma followers_ties_not_reversed :
  let rows := [Page.errorRow "first!" "Invalid handle format";
               Page.errorRow "second!" "Invalid handle format";
               Page.successRow (fst (Route.analyzeInstagramAccount Route.FetchFailed "test"))] in
  let st := {| Page.handles := [""]; Page.results := rows;
               Page.loading := false; Page.sortConfig := None |} in
  let ascending := Page.sortData Page.Kfollowers st in
  let descending := Page.sortData Page.Kfollowers ascending in
  length rows = 3%nat
  /\ map Page.handle (Page.getSortedResults ascending) = ["first!"; "second!"; "test"]
  /\ map Page.handle (Page.getSortedResults descending) = ["test"; "first!"; "second!"]
  /\ Page.getSortedResults descending <> rev (Page.getSortedResults ascending).
Proof.
  cbv zeta. split; [reflexivity|]. split; [reflexivity|]. split; [reflexivity|].
  intros H. apply (f_equal (map Page.handle)) in H. vm_compute in H. discriminate H.
Qed.

(** ** Running the analysis *)

Lemma analyzeLoop_rows (net : nat -> string -> Page.outcome) (k : nat)
  (valid : list string) (acc : list Page.InstagramData) :
  Page.analyzeLoop net k valid acc
  = (acc ++ imap (fun i h => Page.rowOf h (net (k + i)%nat h)) valid)%list.
Proof.
  revert k acc. induction valid as [|h valid IH]; intros k acc; simpl.
  - now rewrite app_nil_r.
  - rewrite IH, <- app_assoc. simpl. replace (k + 0)%nat with k by lia.
    do 2 f_equal. apply imap_ext. intros i x _. unfold compose. cbv beta.
    replace (k + S i)%nat with (S k + i)%nat by lia. reflexivity.
Qed.

Lemma validHandlesOf_In (st : Page.state) (h : string) :
  In h (Page.validHandlesOf st) <-> In h (Page.handles st) /\ Js.trim h <> EmptyString.
Proof.
  unfold Page.validHandlesOf. rewrite List.filter_In, negb_true_iff.
  now rewrite String.eqb_neq.
Qed.

(** C4, as the code has it.  When some handle is not blank,
    [analyzeAccounts] stores exactly one row per non-blank handle, in the
    order of the inputs, the row of request [i] depending on that request
    alone: the record tagged success when the response is OK, and otherwise
    a row tagged error that keeps the handle, has every number at zero and
    carries the server's message, a generic one, or "Network error"; the
    results are replaced and loading is cleared.  When every handle is
    blank, it changes nothing. *)
Theorem analyzeAccounts_rows (net : nat -> string -> Page.outcome) (st : Page.state) :
  let valid := Page.validHandlesOf st in
  let after := Page.analyzeAccounts net st in
  (forall h, In h valid <-> In h (Page.handles st) /\ Js.trim h <> EmptyString)
  /\ (valid = [] -> after = st)
  /\ (valid <> [] ->
        Page.results after = imap (fun i h => Page.rowOf h (net i h)) valid
        /\ length (Page.results after) = length valid
        /\ Page.loading after = false
        /\ Page.loading (Page.analyzeAccounts_pending st) = true
        /\ Page.handles after = Page.handles st
        /\ Page.sortConfig after = Page.sortConfig st)
  /\ (forall i h data, net i h = Page.Ok data ->
        Page.rowOf h (net i h) = Page.successRow data
        /\ Page.status (Page.rowOf h (net i h)) = Some Page.StatusSuccess)
  /\ (forall i h,
        (forall data, net i h <> Page.Ok data) ->
        let row := Page.rowOf h (net i h) in
        Page.handle row = h
        /\ Page.followers row = 0 /\ Page.averageViews row = 0
        /\ Page.engagementRate row = 0%float
        /\ Page.status row = Some Page.StatusError
        /\ Page.error row
           = Some match net i h with
                  | Page.NotOk (Some (String c rest)) => String c rest
                  | Page.NotOk _ => "Failed to fetch data"
                  | _ => "Network error"
                  end).
Proof.
  cbv zeta. split; [apply validHandlesOf_In|].
  unfold Page.analyzeAccounts, Page.analyzeAccounts_pending.
  destruct (Page.validHandlesOf st) as [|h0 valid] eqn:Ev; simpl.
  - split; [reflexivity|]. split; [congruence|].
    split.
    + intros i h data ->. now split.
    + intros i h Hno.
      destruct (net i h) as [data|[[|c rest]|]|] eqn:E;
        [now contradiction (Hno data)|..]; simpl; repeat split; reflexivity.
  - split; [discriminate|]. split.
    + intros _. rewrite analyzeLoop_rows. simpl.
      repeat split; try reflexivity.
      rewrite length_imap. reflexivity.
    + split.
      * intros i h data ->. now split.
      * intros i h Hno.
        destruct (net i h) as [data|[[|c rest]|]|] eqn:E;
          [now contradiction (Hno data)|..]; simpl; repeat split; reflexivity.
Qed.

(** C4 as stated fails when every handle is blank: after a run that stored
    a row, clearing the input and running again leaves that row in the
    results, where one row per non-blank handle would be none. *)
Lemma analyzeAccounts_blank_keeps_results :
  let net := fun (_ : nat) (_ : string) => Page.Threw in
  let first := Page.analyzeAccounts net (Page.updateHandle 0 "test" Page.initial) in
  let cleared := Page.updateHandle 0 "" first in
  let second := Page.analyzeAccounts net cleared in
  Page.validHandlesOf cleared = []
  /\ Page.results second = [Page.errorRow "test" "Network error"]
  /\ ~ (Page.results second
        = imap (fun i h => Page.rowOf h (net i h)) (Page.validHandlesOf cleared)).
Proof.
  cbv zeta. split; [reflexivity|]. split; [reflexivity|].
  vm_compute. discriminate.
Qed.

(** ** Exports *)

Lemma append_cancel_l (s a b : string) : (s ++ a = s ++ b)%string -> a = b.
Proof.
  induction s as [|c s IH]; simpl; [exact (fun H => H)|].
  intros H. injection H as H. now apply IH.
Qed.

(** C9.  The two exports carry the same text: both hand the same rows, with
    the same seven headers, to the same serializer.  They differ only in
    the MIME type and in the extension of the file name. *)
Theorem exports_same_content
  (unparse : list (list (string * Page.cell)) -> string)
  (now : string) (st : Page.state) :
  let csv := Page.exportToCSV unparse now st in
  let xlsx := Page.exportToExcel unparse now st in
  Page.content csv = Page.content xlsx
  /\ Page.content csv = unparse (map Page.exportRow (Page.results st))
  /\ (forall r, map fst (Page.exportRow r)
                = ["Handle"; "Name"; "Followers"; "Average Views"; "Category";
                   "Engagement Rate (%)"; "Location"])
  /\ Page.mime csv = "text/csv"
  /\ Page.mime xlsx = "application/vnd.ms-excel"
  /\ Page.mime csv <> Page.mime xlsx
  /\ (exists base,
        Page.filename csv = (base ++ ".csv")%string
        /\ Page.filename xlsx = (base ++ ".xlsx")%string
        /\ base = ("instagram-analysis-" ++ Page.before_T now)%string)
  /\ Page.filename csv <> Page.filename xlsx.
Proof.
  cbv zeta. repeat split; try discriminate.
  - exists ("instagram-analysis-" ++ Page.before_T now)%string.
    unfold Page.exportToCSV, Page.exportToExcel. cbn [Page.filename].
    repeat split.
  - unfold Page.exportToCSV, Page.exportToExcel. cbn [Page.filename].
    intros H. apply append_cancel_l, append_cancel_l in H. discriminate H.
Qed.

(** C10.  What is exported does not depend on the sort configuration: two
    states with the same stored results export the same files, whatever
    their sort key and direction, and the rows are serialized in the stored
    order. *)
Theorem export_ignores_sort
  (unparse : list (list (string * Page.cell)) -> string)
  (now : string) (st1 st2 : Page.state) :
  Page.results st1 = Page.results st2 ->
  Page.exportToCSV unparse now st1 = Page.exportToCSV unparse now st2
  /\ Page.exportToExcel unparse now st1 = Page.exportToExcel unparse now st2
  /\ Page.content (Page.exportToCSV unparse now st1)
     = unparse (map Page.exportRow (Page.results st2))
  /\ Page.content (Page.exportToExcel unparse now st1)
     = unparse (map Page.exportRow (Page.results st2))
  /\ (forall k, Page.exportToCSV unparse now (Page.sortData k st1)
                = Page.exportToCSV unparse now st2)
  /\ (forall k, Page.exportToExcel unparse now (Page.sortData k st1)
                = Page.exportToExcel unparse now st2).
Proof.
  intros H. unfold Page.exportToCSV, Page.exportToExcel. simpl.
  rewrite H. repeat split.
Qed.

Lemma export_ignores_sort_witness :
  let rows := [Page.errorRow "zed!" "Invalid handle format";
               Page.errorRow "abe!" "Invalid handle format"] in
  let stored := {| Page.handles := [""]; Page.results := rows;
                   Page.loading := false; Page.sortConfig := None |} in
  let sorted := Page.sortData Page.Khandle stored in
  Page.results sorted = Page.results stored
  /\ map Page.handle (Page.getSortedResults sorted) = ["abe!"; "zed!"]
  /\ map Page.handle (Page.results sorted) = ["zed!"; "abe!"]
  /\ forall unparse now,
       Page.exportToCSV unparse now sorted = Page.exportToCSV unparse now stored
       /\ Page.content (Page.exportToCSV unparse now sorted)
          = unparse (map Page.exportRow rows).
Proof.
  cbv zeta. split; [reflexivity|]. split; [reflexivity|]. split; [reflexivity|].
  intros unparse now.
  pose proof (export_ignores_sort unparse now
                (Page.sortData Page.Khandle
                   {| Page.handles := [""];
                      Page.results := [Page.errorRow "zed!" "Invalid handle format";
                                       Page.errorRow "abe!" "Invalid handle format"];
                      Page.loading := false; Page.sortConfig := None |})
                {| Page.handles := [""];
                   Page.results := [Page.errorRow "zed!" "Invalid handle format";
                                    Page.errorRow "abe!" "Invalid handle format"];
                   Page.loading := false; Page.sortConfig := None |}
                eq_refl) as (Hcsv & _ & Hcontent & _).
  split; [exact Hcsv | exact Hcontent].
Defined.

(** * Further properties of the endpoint *)

Lemma at_index_In (xs : list string) (i : Z) :
  0 <= i < Z.of_nat (length xs) -> In (Route.at_index xs i) xs.
Proof.
  intros H. unfold Route.at_index. apply nth_In. lia.
Qed.

Lemma engagementRate_of_known (hash : Z) :
  0 <= hash -> In (Route.engagementRate_of hash) SortSpec.endpoint_rates.
Proof.
  intros H. right. apply in_map_iff.
  exists (Z.to_nat (hash mod 50)).
  pose proof (Z.mod_pos_bound hash 50 ltac:(lia)) as Hb.
  split; [|apply in_seq; lia].
  unfold Route.engagementRate_of.
  rewrite !rem_is_mod by lia.
  rewrite Z2Nat.id by lia. now rewrite Z.mod_mod by lia.
Qed.

(** X1.  Whatever the handle and the outside world, the derived numbers stay in
    their ranges: followers from 1000 to 500999, average views between three
    tenths and three quarters of the followers, the rate one of the fifty
    doubles 1.50, 1.60, ..., 6.40 (the double of [150 + 10 k] hundredths for
    a [k] below fifty), category and location entries of the two lists. *)
Theorem analyze_ranges (world : Route.page) (h : string) :
  let d := fst (Route.analyzeInstagramAccount world h) in
  1000 <= Route.followers d <= 500999
  /\ 3 * Route.followers d / 10 <= Route.averageViews d
  /\ Route.averageViews d <= 3 * Route.followers d / 4
  /\ 300 <= Route.averageViews d < Route.followers d
  /\ (exists k, 0 <= k < 50
        /\ Route.engagementRate d = MetricSpec.double_of_hundredths (150 + 10 * k))
  /\ In (Route.category d) Route.categories
  /\ In (Route.location d) Route.locations.
Proof.
  cbv zeta.
  destruct (analyze_generated world h) as (_ & Hf & Hv & He & Hc & Hl & _).
  pose proof (hash_of_nonneg h) as Hpos.
  set (hash := Route.hash_of h) in *.
  rewrite Hf, Hv, He, Hc, Hl.
  rewrite followers_of_spec, averageViews_of_exact by exact Hpos.
  pose proof (followers_bounds hash) as Hb.
  pose proof (Z.mod_pos_bound hash 10 ltac:(lia)) as Hd.
  set (f := MetricSpec.followers hash) in *.
  set (r := hash mod 10) in *.
  clearbody f r.
  assert (Hcases : r = 0 \/ r = 1 \/ r = 2 \/ r = 3 \/ r = 4 \/ r = 5
                   \/ r = 6 \/ r = 7 \/ r = 8 \/ r = 9) by lia.
  split; [lia|].
  split; [destruct Hcases as [->|[->|[->|[->|[->|[->|[->|[->|[->| ->]]]]]]]]];
          Z.div_mod_to_equations; lia|].
  split; [destruct Hcases as [->|[->|[->|[->|[->|[->|[->|[->|[->| ->]]]]]]]]];
          Z.div_mod_to_equations; lia|].
  split; [destruct Hcases as [->|[->|[->|[->|[->|[->|[->|[->|[->| ->]]]]]]]]];
          Z.div_mod_to_equations; lia|].
  split.
  { exists (hash mod 50). split; [apply Z.mod_pos_bound; lia|].
    rewrite engagementRate_of_exact by exact Hpos.
    now rewrite spec_engagementRate_hundredths. }
  split.
  - apply at_index_In. rewrite rem_is_mod by lia.
    apply (Z.mod_pos_bound hash 15). lia.
  - apply at_index_In. rewrite rem_is_mod by lia.
    apply (Z.mod_pos_bound hash 16). lia.
Qed.

Lemma code_sum_list (h : string) :
  MetricSpec.code_sum h
  = fold_right (fun c acc => Js.charCodeAt0 c + acc) 0 (list_ascii_of_string h).
Proof. induction h as [|c h IH]; simpl; [reflexivity | now rewrite IH]. Qed.

Lemma code_sum_Permutation (h1 h2 : string) :
  Permutation (list_ascii_of_string h1) (list_ascii_of_string h2) ->
  MetricSpec.code_sum h1 = MetricSpec.code_sum h2.
Proof.
  rewrite !code_sum_list.
  induction 1 as [|c l l' Hp IH|c c' l|l l' l'' H1 IH1 H2 IH2]; simpl; lia.
Qed.

(** X2.  The hash is a sum, so it does not see the order of the characters: two
    handles made of the same characters get the same followers, views,
    rate, category and location. *)
Theorem anagrams_share_metrics (world1 world2 : Route.page) (h1 h2 : string) :
  Permutation (list_ascii_of_string h1) (list_ascii_of_string h2) ->
  let d1 := fst (Route.analyzeInstagramAccount world1 h1) in
  let d2 := fst (Route.analyzeInstagramAccount world2 h2) in
  Route.followers d1 = Route.followers d2
  /\ Route.averageViews d1 = Route.averageViews d2
  /\ Route.engagementRate d1 = Route.engagementRate d2
  /\ Route.category d1 = Route.category d2
  /\ Route.location d1 = Route.location d2.
Proof.
  intros Hp. cbv zeta.
  destruct (analyze_generated world1 h1) as (_ & Hf1 & Hv1 & He1 & Hc1 & Hl1 & _).
  destruct (analyze_generated world2 h2) as (_ & Hf2 & Hv2 & He2 & Hc2 & Hl2 & _).
  rewrite Hf1, Hv1, He1, Hc1, Hl1, Hf2, Hv2, He2, Hc2, Hl2.
  rewrite !hash_of_code_sum, (code_sum_Permutation h1 h2 Hp).
  repeat split.
Qed.

Lemma anagrams_share_metrics_witness :
  Permutation (list_ascii_of_string "ab") (list_ascii_of_string "ba")
  /\ Route.followers (fst (Route.analyzeInstagramAccount Route.FetchFailed "ab"))
     = Route.followers (fst (Route.analyzeInstagramAccount (Route.Fetched None) "ba")).
Proof.
  assert (Hp : Permutation (list_ascii_of_string "ab") (list_ascii_of_string "ba"))
    by (simpl; apply perm_swap).
  split; [exact Hp|].
  exact (proj1 (anagrams_share_metrics Route.FetchFailed (Route.Fetched None)
                  "ab" "ba" Hp)).
Defined.

Lemma POST_world_independent_cases (w1 w2 : Route.page) (b : option Route.json) :
  (fst (Route.POST w1 b) = fst (Route.POST w2 b)
   /\ Route.status (fst (Route.POST w1 b)) <> 200)
  \/ exists s,
       fst (Route.POST w1 b)
       = {| Route.status := 200;
            Route.body := Route.DataBody (fst (Route.analyzeInstagramAccount w1 s)) |}
       /\ fst (Route.POST w2 b)
          = {| Route.status := 200;
               Route.body := Route.DataBody (fst (Route.analyzeInstagramAccount w2 s)) |}.
Proof.
  pose proof (POST_cases w1 b) as H1. pose proof (POST_cases w2 b) as H2.
  inversion H1 as [Hn E1 | Hp Hall E1 | s His Hs Hc E1 | s His Hc Ht E1 | s His Ht E1];
    inversion H2 as [Hn' E2 | Hp' Hall' E2 | s' His' Hs' Hc' E2
                    | s' His' Hc' Ht' E2 | s' His' Ht' E2];
    try solve [left; split; [reflexivity | simpl; discriminate]];
    try solve [post_facts];
    try solve [right; same_handle; exists (Route.cleanHandle s); split; reflexivity].
Qed.

(** X3.  The outside world reaches the answer through the name alone: for any
    request, two worlds give the same status, the same error message if
    there is one, and otherwise records equal in every field but the name. *)
Theorem world_shows_only_in_name (w1 w2 : Route.page) (b : option Route.json) :
  let r1 := fst (Route.POST w1 b) in
  let r2 := fst (Route.POST w2 b) in
  Route.status r1 = Route.status r2
  /\ match Route.body r1, Route.body r2 with
     | Route.ErrorBody e1, Route.ErrorBody e2 => e1 = e2
     | Route.DataBody d1, Route.DataBody d2 =>
         Route.handle d1 = Route.handle d2
         /\ Route.followers d1 = Route.followers d2
         /\ Route.averageViews d1 = Route.averageViews d2
         /\ Route.category d1 = Route.category d2
         /\ Route.engagementRate d1 = Route.engagementRate d2
         /\ Route.location d1 = Route.location d2
         /\ (Route.enrichment w1 = Route.enrichment w2 -> Route.name d1 = Route.name d2)
     | _, _ => False
     end.
Proof.
  cbv zeta.
  destruct (POST_world_independent_cases w1 w2 b) as [[E _]|(s & E1 & E2)].
  - rewrite E. split; [reflexivity|].
    destruct (Route.body (fst (Route.POST w2 b))); [reflexivity|].
    repeat split.
  - rewrite E1, E2. simpl. split; [reflexivity|].
    destruct (analyze_generated w1 s) as (Hh1 & Hf1 & Hv1 & He1 & Hc1 & Hl1 & Hn1).
    destruct (analyze_generated w2 s) as (Hh2 & Hf2 & Hv2 & He2 & Hc2 & Hl2 & Hn2).
    rewrite Hh1, Hf1, Hv1, He1, Hc1, Hl1, Hh2, Hf2, Hv2, He2, Hc2, Hl2.
    repeat split. intros Hw. now rewrite Hn1, Hn2, Hw.
Qed.

Lemma analyze_effects (world : Route.page) (h : string) :
  snd (Route.analyzeInstagramAccount world h)
  = Route.HttpGet ("https://www.instagram.com/" ++ h ++ "/")
    :: match world with
       | Route.FetchFailed =>
           [Route.ConsoleLog ("Could not fetch data for " ++ h ++ ", using generated data")]
       | Route.Fetched _ => []
       end.
Proof. destruct world as [|[n|]]; reflexivity. Qed.

(** X4.  The handler contacts the outside only for a handle that passed the
    format test, once, at the profile address of that very handle; the
    handle it returns is that handle.  An answer other than 200 made no
    request, and an answer of 500 logged one error and did nothing else. *)
Theorem POST_requests_only_valid_handles (world : Route.page) (b : option Route.json) :
  let r := fst (Route.POST world b) in
  let effects := snd (Route.POST world b) in
  (Route.status r = 200 ->
     exists d rest,
       Route.body r = Route.DataBody d
       /\ MetricSpec.valid_handle (Route.handle d)
       /\ effects
          = Route.HttpGet ("https://www.instagram.com/" ++ Route.handle d ++ "/") :: rest
       /\ forall url, ~ In (Route.HttpGet url) rest)
  /\ (Route.status r <> 200 -> forall url, ~ In (Route.HttpGet url) effects)
  /\ (Route.status r = 500 ->
        effects = [Route.ConsoleError "Error analyzing account:"]).
Proof.
  cbv zeta. pose proof (POST_cases world b) as Hcase.
  inversion Hcase as [Hn Heq | Hp Hall Heq | s His Hs Hc Heq
                     | s His Hc Ht Heq | s His Ht Heq]; clear Hcase; simpl.
  - split; [discriminate|]. split; [|reflexivity].
    intros _ url [H|[]]. discriminate H.
  - split; [discriminate|]. split; [|discriminate]. intros _ url [].
  - split; [discriminate|]. split; [|discriminate]. intros _ url [].
  - split; [discriminate|]. split; [|discriminate]. intros _ url [].
  - split; [|split; [congruence | discriminate]].
    intros _.
    exists (fst (Route.analyzeInstagramAccount world (Route.cleanHandle s))).
    destruct (analyze_generated world (Route.cleanHandle s)) as (Hh & _).
    rewrite Hh, analyze_effects.
    eexists. split; [reflexivity|]. split; [now apply test_handle_re_spec|].
    split; [reflexivity|].
    intros url Hin. destruct world as [|n]; simpl in Hin.
    + destruct Hin as [H|[]]. discriminate H.
    + destruct Hin.
Qed.

(** * Further properties of the page controller *)

Lemma trimEnd_head (c : ascii) (s : string) :
  Js.is_space c = false -> exists t, Js.trimEnd (String c s) = String c t.
Proof.
  intros Hc. simpl. destruct (Js.trimEnd s).
  - rewrite Hc. now exists EmptyString.
  - eexists. reflexivity.
Qed.

Lemma trimStart_head (s : string) :
  Js.trimStart s = EmptyString
  \/ exists c t, Js.trimStart s = String c t /\ Js.is_space c = false.
Proof.
  induction s as [|c s IH]; simpl; [now left|].
  destruct (Js.is_space c) eqn:E; [exact IH|]. right. now exists c, s.
Qed.

Lemma trimEnd_idempotent (s : string) : Js.trimEnd (Js.trimEnd s) = Js.trimEnd s.
Proof.
  induction s as [|c s IH]; [reflexivity|]. simpl.
  destruct (Js.trimEnd s) as [|c' t] eqn:E.
  - destruct (Js.is_space c) eqn:Ec; [reflexivity|]. simpl. now rewrite Ec.
  - change (Js.trimEnd (String c (String c' t)))
      with (match Js.trimEnd (String c' t) with
            | EmptyString => if Js.is_space c then EmptyString else String c EmptyString
            | u => String c u
            end).
    now rewrite IH.
Qed.

Lemma trim_head (s : string) :
  Js.trim s = EmptyString
  \/ exists c t, Js.trim s = String c t /\ Js.is_space c = false.
Proof.
  unfold Js.trim. destruct (trimStart_head s) as [->|(c & t & -> & Hc)].
  - now left.
  - right. destruct (trimEnd_head c t Hc) as [u ->]. now exists c, u.
Qed.

Lemma trim_idempotent (s : string) : Js.trim (Js.trim s) = Js.trim s.
Proof.
  destruct (trim_head s) as [E|(c & t & E & Hc)].
  - now rewrite E.
  - unfold Js.trim at 1. rewrite E. simpl Js.trimStart. rewrite Hc.
    rewrite <- E. unfold Js.trim. apply trimEnd_idempotent.
Qed.

Lemma trimEnd_empty (s : string) :
  Js.trimEnd s = EmptyString <-> Js.all_chars Js.is_space s = true.
Proof.
  induction s as [|c s IH]; simpl; [tauto|].
  destruct (Js.trimEnd s) as [|c' t].
  - destruct (Js.is_space c); simpl.
    + split; [intros _; now apply IH | reflexivity].
    + split; discriminate.
  - split; [discriminate|]. intros H. apply andb_prop in H as [_ H].
    apply IH in H. discriminate.
Qed.

Lemma trim_empty (s : string) :
  Js.trim s = EmptyString <-> Js.all_chars Js.is_space s = true.
Proof.
  unfold Js.trim. rewrite trimEnd_empty.
  induction s as [|c s IH]; simpl; [tauto|].
  destruct (Js.is_space c) eqn:E; simpl; [exact IH|].
  rewrite E. simpl. tauto.
Qed.

(** X5.  What [updateHandle] stores is already trimmed, so a stored handle is
    blank only when it is empty.  It is empty exactly when the input, its
    first [@] removed, is all white space; otherwise the slot just written
    takes part in the next analysis. *)
Theorem stored_handle_is_trimmed (index : nat) (value : string) (st : Page.state) :
  (index < length (Page.handles st))%nat ->
  let stored := Route.cleanHandle value in
  Page.handles (Page.updateHandle index value st) !! index = Some stored
  /\ Js.trim stored = stored
  /\ (stored = EmptyString
      <-> Js.all_chars Js.is_space (Js.replace_at value) = true)
  /\ (In stored (Page.validHandlesOf (Page.updateHandle index value st))
      <-> stored <> EmptyString).
Proof.
  intros Hlt. cbv zeta.
  assert (Hlook : Page.handles (Page.updateHandle index value st) !! index
                  = Some (Route.cleanHandle value)).
  { unfold Page.updateHandle. simpl. now apply assign_index_lookup. }
  assert (Htrim : Js.trim (Route.cleanHandle value) = Route.cleanHandle value)
    by apply trim_idempotent.
  split; [exact Hlook|]. split; [exact Htrim|].
  split; [apply trim_empty|].
  rewrite validHandlesOf_In, Htrim. split; [tauto|].
  intros Hne. split; [|exact Hne].
  apply list_elem_of_In. eapply list_elem_of_lookup_2. exact Hlook.
Qed.

Lemma stored_handle_is_trimmed_witness :
  (0 < length (Page.handles Page.initial))%nat
  /\ Page.handles (Page.updateHandle 0 " @nasa " Page.initial) !! 0%nat = Some "nasa"
  /\ Js.trim "nasa" = "nasa".
Proof.
  assert (H : (0 < length (Page.handles Page.initial))%nat) by (simpl; lia).
  split; [exact H|].
  destruct (stored_handle_is_trimmed 0 " @nasa " Page.initial H) as (H1 & H2 & _).
  split; [exact H1 | exact H2].
Defined.

(** ** The list of handle inputs *)

Lemma delete_last {A : Type} (l : list A) (x : A) :
  delete (length l) (l ++ [x])%list = l.
Proof. induction l as [|a l IH]; simpl; [reflexivity | now rewrite IH]. Qed.

Lemma state_eta (st : Page.state) :
  {| Page.handles := Page.handles st; Page.results := Page.results st;
     Page.loading := Page.loading st; Page.sortConfig := Page.sortConfig st |} = st.
Proof. now destruct st. Qed.

(** X6.  Adding a slot puts one empty entry at the end, and removing that entry
    again gives back the state as it was. *)
Theorem add_then_remove_restores (st : Page.state) :
  Page.handles st <> [] ->
  Page.handles (Page.addHandleInput st) = (Page.handles st ++ [EmptyString])%list
  /\ length (Page.handles (Page.addHandleInput st)) = S (length (Page.handles st))
  /\ Page.removeHandleInput (length (Page.handles st)) (Page.addHandleInput st) = st.
Proof.
  intros Hne. split; [reflexivity|].
  split; [unfold Page.addHandleInput; simpl; rewrite length_app; simpl; lia|].
  unfold Page.removeHandleInput, Page.addHandleInput. simpl.
  pose proof (filter_indexed_delete (Page.handles st ++ [EmptyString])%list 0
                (length (Page.handles st))) as Hd.
  simpl in Hd. rewrite Hd, delete_last.
  destruct (Page.handles st) as [|h rest] eqn:E; [now contradiction Hne|].
  simpl. unfold Page.setHandles. simpl. rewrite <- E. apply state_eta.
Qed.

Lemma add_then_remove_restores_witness :
  Page.handles Page.initial <> []
  /\ Page.removeHandleInput 1 (Page.addHandleInput Page.initial) = Page.initial.
Proof.
  assert (H : Page.handles Page.initial <> []) by discriminate.
  split; [exact H|].
  exact (proj2 (proj2 (add_then_remove_restores Page.initial H))).
Defined.

(** X7.  Where the remove button is shown (two slots or more) and pressed on a
    slot that exists, the list loses exactly that slot: the entries before
    it stay in place, the later ones move up by one, and the placeholder is
    never needed. *)
Theorem remove_shown_slot (index : nat) (st : Page.state) :
  Page.removeButtonShown st = true ->
  (index < length (Page.handles st))%nat ->
  let after := Page.handles (Page.removeHandleInput index st) in
  after = delete index (Page.handles st)
  /\ S (length after) = length (Page.handles st)
  /\ (forall j, (j < index)%nat -> after !! j = Page.handles st !! j)
  /\ (forall j, (index <= j)%nat -> after !! j = Page.handles st !! S j).
Proof.
  intros Hshown Hlt. cbv zeta. unfold Page.removeButtonShown in Hshown.
  apply Nat.ltb_lt in Hshown.
  unfold Page.removeHandleInput. simpl.
  pose proof (filter_indexed_delete (Page.handles st) 0 index) as Hd.
  simpl in Hd. rewrite Hd.
  assert (Hlen : S (length (delete index (Page.handles st))) = length (Page.handles st)).
  { rewrite length_delete; [lia|]. now apply lookup_lt_is_Some_2. }
  assert (Hz : (length (delete index (Page.handles st)) =? 0)%nat = false)
    by (apply Nat.eqb_neq; lia).
  rewrite Hz.
  split; [reflexivity|]. split; [exact Hlen|]. split.
  - intros j Hj. now apply list_lookup_delete_lt.
  - intros j Hj. now apply list_lookup_delete_ge.
Qed.

Lemma remove_shown_slot_witness :
  let st := Page.updateHandle 1 "b" (Page.addHandleInput (Page.updateHandle 0 "a" Page.initial)) in
  Page.removeButtonShown st = true
  /\ (0 < length (Page.handles st))%nat
  /\ Page.handles (Page.removeHandleInput 0 st) = ["b"].
Proof.
  cbv zeta.
  assert (Hs : Page.removeButtonShown
                 (Page.updateHandle 1 "b"
                    (Page.addHandleInput (Page.updateHandle 0 "a" Page.initial))) = true)
    by reflexivity.
  assert (Hl : (0 < length (Page.handles
                   (Page.updateHandle 1 "b"
                      (Page.addHandleInput (Page.updateHandle 0 "a" Page.initial)))))%nat)
    by (simpl; lia).
  split; [exact Hs|]. split; [exact Hl|].
  exact (proj1 (remove_shown_slot 0
                  (Page.updateHandle 1 "b"
                     (Page.addHandleInput (Page.updateHandle 0 "a" Page.initial)))
                  Hs Hl)).
Defined.

(** ** The sort column *)

Lemma key_eqb_eq (a b : Page.key) : Page.key_eqb a b = true <-> a = b.
Proof. destruct a, b; simpl; split; congruence. Qed.

(** X8.  Clicking a column header sets that column; the same column clicked
    again alternates between ascending and descending, a different column
    starts ascending.  Nothing else in the state changes. *)
Theorem sortData_alternates (k k' : Page.key) (st : Page.state) :
  Page.sortData k (Page.sortData k (Page.sortData k st)) = Page.sortData k st
  /\ (Page.sortConfig st <> Some (k, Page.Asc) ->
      Page.sortConfig (Page.sortData k st) = Some (k, Page.Asc)
      /\ Page.sortConfig (Page.sortData k (Page.sortData k st)) = Some (k, Page.Desc))
  /\ (Page.sortConfig st = Some (k, Page.Asc) ->
      Page.sortConfig (Page.sortData k st) = Some (k, Page.Desc)
      /\ Page.sortConfig (Page.sortData k (Page.sortData k st)) = Some (k, Page.Asc))
  /\ (k' <> k -> Page.sortConfig (Page.sortData k' (Page.sortData k st)) = Some (k', Page.Asc))
  /\ Page.results (Page.sortData k st) = Page.results st
  /\ Page.handles (Page.sortData k st) = Page.handles st
  /\ Page.loading (Page.sortData k st) = Page.loading st.
Proof.
  destruct st as [hs rs ld cfg]. unfold Page.sortData, Page.setSortConfig. simpl.
  split.
  { destruct cfg as [[k0 [|]]|]; destruct k; try destruct k0; reflexivity. }
  split.
  { intros Hne. destruct cfg as [[k0 [|]]|]; destruct k; try destruct k0; simpl;
      first [split; reflexivity | congruence]. }
  split.
  { intros ->. destruct k; simpl; split; reflexivity. }
  split; [|repeat split].
  intros Hne.
  destruct cfg as [[k0 [|]]|]; destruct k, k'; try destruct k0; simpl;
    first [reflexivity | congruence].
Qed.

(** ** The sorted view *)

(** X9.  The table shows every stored row exactly once, whatever the rows hold
    (any double in the rate field) and whatever the sort configuration;
    without one it shows them in the stored order. *)
Theorem sorted_view_shows_every_row (st : Page.state) :
  Permutation (Page.results st) (Page.getSortedResults st)
  /\ length (Page.getSortedResults st) = length (Page.results st)
  /\ (forall r, In r (Page.getSortedResults st) <-> In r (Page.results st))
  /\ (Page.sortConfig st = None -> Page.getSortedResults st = Page.results st).
Proof.
  assert (Hp : Permutation (Page.results st) (Page.getSortedResults st)).
  { unfold Page.getSortedResults.
    destruct (Page.sortConfig st) as [[k d]|]; [apply Array_sort_perm | reflexivity]. }
  split; [exact Hp|].
  split; [symmetry; now apply Permutation_length|].
  split.
  - intros r. split; apply Permutation_in; [now symmetry | exact Hp].
  - intros Hc. unfold Page.getSortedResults. now rewrite Hc.
Qed.

Lemma compareRows_spec_text (k : Page.key) (d : Page.direction)
  (a b : Page.InstagramData) :
  k <> Page.KengagementRate ->
  Page.compareRows k d a b = SortSpec.compare k d a b.
Proof.
  intros Hk.
  destruct k; simpl; try (now contradiction Hk);
    first [ rewrite byInteger_compare | rewrite byString_compare ];
    destruct d; reflexivity.
Qed.

(** X10.  By any column other than the engagement rate, the view is the stable
    sort of the stored rows under the comparator of the specification, with
    no condition on the rows. *)
Theorem sorted_view_by_other_columns (k : Page.key) (d : Page.direction)
  (st : Page.state) :
  k <> Page.KengagementRate ->
  Page.sortConfig st = Some (k, d) ->
  SortSpec.stable_sort_of (SortSpec.compare k d) (Page.results st)
    (Page.getSortedResults st).
Proof.
  intros Hk Hcfg. unfold Page.getSortedResults. rewrite Hcfg.
  rewrite (Array_sort_ext (Page.compareRows k d) (SortSpec.compare k d))
    by (intros; now apply compareRows_spec_text).
  apply Array_sort_is_stable_sort; [apply compare_antisym | apply compare_trans].
Qed.

Lemma sorted_view_by_other_columns_witness :
  let st := {| Page.handles := [""];
               Page.results := [Page.errorRow "b!" "Invalid handle format";
                                Page.errorRow "a!" "Invalid handle format"];
               Page.loading := false;
               Page.sortConfig := Some (Page.Khandle, Page.Desc) |} in
  Page.Khandle <> Page.KengagementRate
  /\ Page.sortConfig st = Some (Page.Khandle, Page.Desc)
  /\ SortSpec.stable_sort_of (SortSpec.compare Page.Khandle Page.Desc)
       (Page.results st) (Page.getSortedResults st).
Proof.
  cbv zeta.
  assert (Hk : Page.Khandle <> Page.KengagementRate) by discriminate.
  split; [exact Hk|]. split; [reflexivity|].
  exact (sorted_view_by_other_columns Page.Khandle Page.Desc
           {| Page.handles := [""];
              Page.results := [Page.errorRow "b!" "Invalid handle format";
                               Page.errorRow "a!" "Invalid handle format"];
              Page.loading := false;
              Page.sortConfig := Some (Page.Khandle, Page.Desc) |}
           Hk eq_refl).
Defined.

Lemma Array_sort_idempotent {A : Type} (c : A -> A -> comparison) (l : list A) :
  (forall a b, c a b = CompOpp (c b a)) ->
  (forall a b d, c a b <> Gt -> c b d <> Gt -> c a d <> Gt) ->
  Page.Array_sort c (Page.Array_sort c l) = Page.Array_sort c l.
Proof.
  intros Ha Ht. symmetry. apply (stable_sort_unique c Ha Ht).
  split; [reflexivity|]. split; [now apply Array_sort_sorted | reflexivity].
Qed.

(** X11.  Sorting what is already shown changes nothing: if the sorted view were
    stored as the results, the same key and direction would show it as it
    is. *)
Theorem sorted_view_is_stable_under_resort (k : Page.key) (d : Page.direction)
  (st : Page.state) :
  Page.sortConfig st = Some (k, d) ->
  SortSpec.rates_known (Page.results st) ->
  Page.getSortedResults (Page.setResults (Page.getSortedResults st) st)
  = Page.getSortedResults st.
Proof.
  intros Hcfg Hr. unfold Page.getSortedResults. simpl. rewrite Hcfg.
  assert (Hr' : SortSpec.rates_known
                  (Page.Array_sort (Page.compareRows k d) (Page.results st))).
  { unfold SortSpec.rates_known in *.
    eapply Permutation_Forall; [apply Array_sort_perm | exact Hr]. }
  rewrite (Array_sort_compareRows k d _ (fun _ => rates_known_numbers _ Hr')).
  rewrite (Array_sort_compareRows k d _ (fun _ => rates_known_numbers _ Hr)).
  apply Array_sort_idempotent; [apply compare_antisym | apply compare_trans].
Qed.

Lemma sorted_view_is_stable_under_resort_witness :
  let test :=
    Page.successRow (fst (Route.analyzeInstagramAccount Route.FetchFailed "test")) in
  let nasa :=
    Page.successRow (fst (Route.analyzeInstagramAccount Route.FetchFailed "nasa")) in
  let failed := Page.errorRow "bad handle!" "Invalid handle format" in
  let st := {| Page.handles := [""];
               Page.results := [test; failed; nasa];
               Page.loading := false;
               Page.sortConfig := Some (Page.KengagementRate, Page.Asc) |} in
  Page.sortConfig st = Some (Page.KengagementRate, Page.Asc)
  /\ SortSpec.rates_known (Page.results st)
  /\ map Page.engagementRate (Page.results st) = [6.3; 0; 3.4]%float
  /\ Page.getSortedResults st = [failed; nasa; test]
  /\ Page.getSortedResults st <> Page.results st
  /\ Page.getSortedResults (Page.setResults (Page.getSortedResults st) st)
     = Page.getSortedResults st.
Proof.
  cbv zeta.
  set (rows := [Page.successRow (fst (Route.analyzeInstagramAccount Route.FetchFailed "test"));
                Page.errorRow "bad handle!" "Invalid handle format";
                Page.successRow (fst (Route.analyzeInstagramAccount Route.FetchFailed "nasa"))]).
  assert (Hr : SortSpec.rates_known rows).
  { repeat apply List.Forall_cons; try apply List.Forall_nil.
    - apply (engagementRate_of_known (Route.hash_of "test")). now vm_compute.
    - now left.
    - apply (engagementRate_of_known (Route.hash_of "nasa")). now vm_compute. }
  split; [reflexivity|]. split; [exact Hr|]. split; [reflexivity|].
  split; [reflexivity|].
  split.
  { intros H. apply (f_equal (map Page.followers)) in H. vm_compute in H.
    discriminate H. }
  exact (sorted_view_is_stable_under_resort Page.KengagementRate Page.Asc
           {| Page.handles := [""];
              Page.results := rows;
              Page.loading := false;
              Page.sortConfig := Some (Page.KengagementRate, Page.Asc) |}
           eq_refl Hr).
Defined.

(** ** The page in front of the route handler *)

Lemma viaRoute_outcome (worlds : nat -> Route.page) (i : nat) (h : string) :
  h <> EmptyString ->
  Page.viaRoute worlds i h
  = if (String.length (Route.cleanHandle h) =? 0)%nat
    then Page.NotOk (Some "Handle cannot be empty")
    else if Js.test_handle_re (Route.cleanHandle h)
         then Page.Ok (fst (Route.analyzeInstagramAccount (worlds i) (Route.cleanHandle h)))
         else Page.NotOk (Some "Invalid handle format").
Proof.
  intros Hne. destruct h as [|c rest]; [now contradiction Hne|].
  unfold Page.viaRoute, Page.requestFor, Route.POST. simpl Route.handle_property.
  cbv zeta.
  repeat match goal with
         | |- context [if ?b then _ else _] =>
             lazymatch b with
             | context [if _ then _ else _] => fail
             | _ => destruct b eqn:?
             end
         end; simpl; try reflexivity; try discriminate.
  all: now destruct (Route.analyzeInstagramAccount (worlds i) (Route.cleanHandle (String c rest))).
Qed.

Lemma trim_nonblank_nonempty (h : string) : Js.trim h <> EmptyString -> h <> EmptyString.
Proof. intros H ->. now apply H. Qed.

Lemma Forall_imap {A B : Type} (P : B -> Prop) (f : nat -> A -> B) (l : list A) :
  (forall i x, l !! i = Some x -> P (f i x)) -> Forall P (imap f l).
Proof.
  revert f. induction l as [|a l IH]; intros f H; simpl; constructor.
  - now apply (H 0%nat a).
  - apply IH. intros i x Hi. now apply (H (S i) x).
Qed.

Lemma viaRoute_row (worlds : nat -> Route.page) (i : nat) (h : string) :
  Js.trim h <> EmptyString ->
  let row := Page.rowOf h (Page.viaRoute worlds i h) in
  RowSpec.route_row row
  /\ (Page.status row = Some Page.StatusSuccess -> Page.handle row = Route.cleanHandle h)
  /\ (Page.status row = Some Page.StatusError -> Page.handle row = h).
Proof.
  intros Hb. cbv zeta. rewrite viaRoute_outcome by now apply trim_nonblank_nonempty.
  destruct (String.length (Route.cleanHandle h) =? 0)%nat.
  { split; [right; simpl; repeat split; auto|]. split; [discriminate | reflexivity]. }
  destruct (Js.test_handle_re (Route.cleanHandle h)) eqn:Et.
  2:{ split; [right; simpl; repeat split; auto|]. split; [discriminate | reflexivity]. }
  destruct (analyze_generated (worlds i) (Route.cleanHandle h))
    as (Hh & Hf & _ & He & _).
  unfold RowSpec.route_row, Page.rowOf, Page.successRow.
  cbn [Page.status Page.handle Page.error Page.followers Page.averageViews
       Page.engagementRate].
  rewrite Hh. split; [|split; [reflexivity | discriminate]].
  left. split; [reflexivity|]. split; [reflexivity|].
  split; [now apply test_handle_re_spec|].
  rewrite Hf, He.
  rewrite followers_of_spec by apply hash_of_nonneg.
  pose proof (followers_bounds (Route.hash_of (Route.cleanHandle h))).
  split; [lia|]. apply engagementRate_of_known, hash_of_nonneg.
Qed.

Lemma route_row_rate (r : Page.InstagramData) :
  RowSpec.route_row r -> In (Page.engagementRate r) SortSpec.endpoint_rates.
Proof.
  intros [(_ & _ & _ & _ & H)|(_ & _ & _ & H & _)]; [exact H|].
  rewrite H. now left.
Qed.

(** X12.  With the route handler as the network, a run over some non-blank handle
    stores only rows of two kinds: a success row for a handle that passes
    the format test, with followers from 1000 to 500999 and the handle as
    cleaned by the server; or an error row, numbers at zero, the handle as
    typed, saying "Handle cannot be empty" or "Invalid handle format".  The
    other two messages of the handler, and the page's own generic and
    network messages, never show. *)
Theorem analysis_through_route (worlds : nat -> Route.page) (st : Page.state) :
  Page.validHandlesOf st <> [] ->
  let after := Page.analyzeAccounts (Page.viaRoute worlds) st in
  Forall RowSpec.route_row (Page.results after)
  /\ SortSpec.rates_known (Page.results after)
  /\ (forall i h, Page.validHandlesOf st !! i = Some h ->
        exists row, Page.results after !! i = Some row
          /\ (Page.status row = Some Page.StatusSuccess ->
              Page.handle row = Route.cleanHandle h)
          /\ (Page.status row = Some Page.StatusError -> Page.handle row = h)).
Proof.
  intros Hne. cbv zeta. unfold Page.analyzeAccounts. cbv zeta.
  match goal with
  | |- context [if ?b then _ else _] =>
      replace b with false
        by (destruct (Page.validHandlesOf st); [now contradiction Hne | reflexivity])
  end.
  cbn [Page.results Page.setLoading Page.setResults].
  rewrite analyzeLoop_rows. cbn [app].
  assert (Hblank : forall i h, Page.validHandlesOf st !! i = Some h ->
                     Js.trim h <> EmptyString).
  { intros i h Hi. apply list_elem_of_lookup_2, list_elem_of_In in Hi.
    now apply validHandlesOf_In in Hi. }
  assert (HF : Forall RowSpec.route_row
                 (imap (fun i h => Page.rowOf h (Page.viaRoute worlds (0 + i) h))
                    (Page.validHandlesOf st))).
  { apply Forall_imap. intros i h Hi.
    now apply (viaRoute_row worlds (0 + i) h (Hblank i h Hi)). }
  split; [exact HF|]. split.
  - unfold SortSpec.rates_known. eapply List.Forall_impl; [|exact HF].
    intros r. apply route_row_rate.
  - intros i h Hi. eexists. split.
    + rewrite list_lookup_imap, Hi. reflexivity.
    + apply (viaRoute_row worlds (0 + i) h (Hblank i h Hi)).
Qed.

Lemma analysis_through_route_witness :
  let st := Page.updateHandle 0 "@nasa" Page.initial in
  Page.validHandlesOf st <> []
  /\ Forall RowSpec.route_row
       (Page.results (Page.analyzeAccounts (Page.viaRoute (fun _ => Route.FetchFailed)) st)).
Proof.
  cbv zeta.
  assert (H : Page.validHandlesOf (Page.updateHandle 0 "@nasa" Page.initial) <> [])
    by (vm_compute; discriminate).
  split; [exact H|].
  exact (proj1 (analysis_through_route (fun _ => Route.FetchFailed)
                  (Page.updateHandle 0 "@nasa" Page.initial) H)).
Defined.

(** ** What holds in every state the page can reach *)




(** ** Display and file names *)

Lemma format_scan_all :
  forallb format_test (zrange 10 9990) = true.
Proof. vm_cast_no_check (eq_refl true). Qed.

Lemma format_edge_all :
  forallb format_edge_test (zrange 999950 50) = true.
Proof. vm_cast_no_check (eq_refl true). Qed.

Lemma in_zfrom (count : nat) (lo z : Z) :
  lo <= z < lo + Z.of_nat count -> In z (zfrom lo count).
Proof.
  revert lo. induction count as [|k IH]; intros lo H; [lia|].
  cbn [zfrom]. destruct (Z.eq_dec lo z) as [->|Hne]; [now left|].
  right. apply IH. lia.
Qed.

Lemma in_zrange (lo len z : Z) :
  lo <= z < lo + len -> In z (zrange lo len).
Proof. intros H. apply in_zfrom. lia. Qed.

Lemma toFixed1_prints (x : float) (n : Z) :
  prints x n = true -> Js.toFixed1 x = tenths n.
Proof.
  unfold prints, printed_tenths, Js.toFixed1, tenths.
  destruct (Prim2SF x) as [| | |[|] m e]; try discriminate.
  intros H. apply Z.eqb_eq in H. now rewrite H.
Qed.

(** X14.  [formatNumber] shows an integer below 1000 as it is; a whole number of
    hundreds from 1000 up to a million as its thousands with one decimal and
    "K"; a whole number of hundred thousands from a million up as its
    millions with one decimal and "M".  The thousands form does not carry
    over: 999950 to 999999 are shown as "1000.0K". *)
Theorem formatNumber_shapes :
  (forall n, n < 1000 -> Page.formatNumber n = Js.decimal n)
  /\ (forall m, 10 <= m < 10000 ->
        Page.formatNumber (100 * m) = (tenths m ++ "K")%string)
  /\ (forall m, 10 <= m < 10000 ->
        Page.formatNumber (100000 * m) = (tenths m ++ "M")%string)
  /\ (forall n, 999950 <= n < 1000000 -> Page.formatNumber n = "1000.0K").
Proof.
  split; [|split; [|split]].
  - intros n Hn. unfold Page.formatNumber.
    destruct (Z.leb_spec 1000000 n); [lia|].
    destruct (Z.leb_spec 1000 n); [lia | reflexivity].
  - intros m Hm.
    pose proof (proj1 (forallb_forall _ _) format_scan_all m
                  (in_zrange 10 9990 m ltac:(lia))) as Ht.
    apply andb_prop in Ht as [Ht _]. unfold Page.formatNumber.
    destruct (Z.leb_spec 1000000 (100 * m)); [lia|].
    destruct (Z.leb_spec 1000 (100 * m)); [|lia].
    now rewrite (toFixed1_prints _ _ Ht).
  - intros m Hm.
    pose proof (proj1 (forallb_forall _ _) format_scan_all m
                  (in_zrange 10 9990 m ltac:(lia))) as Ht.
    apply andb_prop in Ht as [_ Ht]. unfold Page.formatNumber.
    destruct (Z.leb_spec 1000000 (100000 * m)); [|lia].
    now rewrite (toFixed1_prints _ _ Ht).
  - intros n Hn.
    pose proof (proj1 (forallb_forall _ _) format_edge_all n
                  (in_zrange 999950 50 n ltac:(lia))) as Ht.
    unfold Page.formatNumber.
    destruct (Z.leb_spec 1000000 n); [lia|].
    destruct (Z.leb_spec 1000 n); [|lia].
    now rewrite (toFixed1_prints _ _ Ht).
Qed.

Lemma before_T_date (date rest : string) :
  ~ In "T"%char (list_ascii_of_string date) ->
  Page.before_T (date ++ String "T" rest) = date.
Proof.
  induction date as [|c date IH]; simpl; [reflexivity|].
  intros H. destruct (Ascii.eqb_spec c "T") as [->|Hc].
  - contradiction H. now left.
  - rewrite IH; [reflexivity|]. intros Hin. apply H. now right.
Qed.

(** X15.  The exported file is named after the date of the timestamp: what stands
    before its first "T". *)
Theorem export_file_names
  (unparse : list (list (string * Page.cell)) -> string)
  (date time : string) (st : Page.state) :
  ~ In "T"%char (list_ascii_of_string date) ->
  Page.filename (Page.exportToCSV unparse (date ++ String "T" time) st)
  = ("instagram-analysis-" ++ date ++ ".csv")%string
  /\ Page.filename (Page.exportToExcel unparse (date ++ String "T" time) st)
     = ("instagram-analysis-" ++ date ++ ".xlsx")%string.
Proof.
  intros H. unfold Page.exportToCSV, Page.exportToExcel. cbn [Page.filename].
  now rewrite before_T_date.
Qed.

Lemma export_file_names_witness :
  ~ In "T"%char (list_ascii_of_string "2026-11-01")
  /\ forall unparse st,
       Page.filename (Page.exportToCSV unparse "2026-11-01T09:30:00.000Z" st)
       = "instagram-analysis-2026-11-01.csv".
Proof.
  assert (H : ~ In "T"%char (list_ascii_of_string "2026-11-01")).
  { simpl. intuition discriminate. }
  split; [exact H|]. intros unparse st.
  exact (proj1 (export_file_names unparse "2026-11-01" "09:30:00.000Z" st H)).
Defined.

(** ** Generated names *)

Lemma spelling_app (a b : string) :
  NameSpec.spelling (a ++ b) = (NameSpec.spelling a ++ NameSpec.spelling b)%string.
Proof.
  induction a as [|c a IH]; simpl; [reflexivity|].
  destruct (NameSpec.is_separator c); simpl; now rewrite IH.
Qed.

Lemma upper_char_spelling (c : ascii) :
  NameSpec.is_separator (Js.upper_char c) = NameSpec.is_separator c
  /\ Js.lower_char (Js.upper_char c) = Js.lower_char c.
Proof.
  destruct c as [[|] [|] [|] [|] [|] [|] [|] [|]]; vm_compute; split; reflexivity.
Qed.

Lemma spelling_toUpperCase (s : string) :
  NameSpec.spelling (Js.toUpperCase s) = NameSpec.spelling s.
Proof.
  induction s as [|c s IH]; simpl; [reflexivity|].
  destruct (upper_char_spelling c) as [-> ->]. now rewrite IH.
Qed.

Lemma spelling_capitalize (s : string) :
  NameSpec.spelling (Route.capitalize s) = NameSpec.spelling s.
Proof.
  unfold Route.capitalize, Js.slice_from.
  rewrite charAt_substring, spelling_app, spelling_toUpperCase, <- spelling_app.
  pose proof (substring_split s 0 1 (String.length s - 1)) as E.
  cbn [Nat.add] in E. rewrite <- E.
  rewrite substring_whole by lia. reflexivity.
Qed.

Lemma concat_empty_cons (x : string) (l : list string) :
  String.concat "" (x :: l) = (x ++ String.concat "" l)%string.
Proof.
  destruct l as [|y l]; simpl; [|reflexivity].
  induction x as [|c x IH]; simpl; [reflexivity | now rewrite <- IH].
Qed.

Lemma spelling_join (l : list string) :
  NameSpec.spelling (Js.join " " l) = String.concat "" (map NameSpec.spelling l).
Proof.
  unfold Js.join. induction l as [|x l IH]; [reflexivity|].
  rewrite map_cons, concat_empty_cons, <- IH.
  destruct l as [|y l].
  - simpl. clear IH. induction (NameSpec.spelling x) as [|c t IHt]; simpl;
      [reflexivity | now rewrite <- IHt].
  - change (String.concat " " (x :: y :: l))
      with (x ++ " " ++ String.concat " " (y :: l))%string.
    now rewrite !spelling_app.
Qed.

Lemma split_dot_underscore_spelling (s : string) :
  String.concat "" (map NameSpec.spelling (Js.split_dot_underscore s))
  = NameSpec.spelling s.
Proof.
  induction s as [|c s IH]; [reflexivity|]. simpl Js.split_dot_underscore.
  destruct (Js.is_dot_or_underscore c) eqn:Ec.
  - rewrite map_cons, concat_empty_cons, IH. simpl.
    assert (Hs : NameSpec.is_separator c = true).
    { unfold NameSpec.is_separator, Js.is_dot_or_underscore in *.
      apply orb_prop in Ec as [->| ->]; now rewrite ?orb_true_r. }
    now rewrite Hs.
  - destruct (Js.split_dot_underscore s) as [|p ps] eqn:Es.
    + simpl in IH. simpl. destruct (NameSpec.is_separator c); simpl;
        now rewrite <- IH.
    + rewrite map_cons, concat_empty_cons in *. simpl NameSpec.spelling.
      destruct (NameSpec.is_separator c); simpl; now rewrite IH.
Qed.

Lemma nameVariants_spelling (h v : string) :
  In v (Route.nameVariants h) -> NameSpec.spelling v = NameSpec.spelling h.
Proof.
  unfold Route.nameVariants. intros [<-|[<-|[<-|[<-|[]]]]].
  - apply spelling_capitalize.
  - apply spelling_toUpperCase.
  - rewrite spelling_join, map_map.
    rewrite (map_ext _ NameSpec.spelling) by apply spelling_capitalize.
    apply split_dot_underscore_spelling.
  - unfold Js.slice, Js.slice_from.
    rewrite !charAt_substring, !spelling_app, !spelling_toUpperCase.
    change (NameSpec.spelling " ") with EmptyString.
    change (EmptyString ++ ?x)%string with x.
    rewrite <- !spelling_app. f_equal.
    pose proof (substring_split h 0 1 3) as E1.
    pose proof (substring_split h 4 1 (String.length h - 5)) as E2.
    pose proof (substring_split h 0 4 (1 + (String.length h - 5))) as E3.
    cbn [Nat.add Nat.sub] in *.
    rewrite <- E1, <- E2, <- E3.
    apply substring_whole. lia.
Qed.

(** X16.  A generated name spells the handle: lower-cased, and with spaces,
    dots and underscores left out, the name and the handle are the same
    string.  The four transforms change the case of letters, turn
    separators into spaces or add a space, and nothing else. *)
Theorem generated_name_spells_handle (world : Route.page) (h : string) :
  Route.enrichment world = None ->
  NameSpec.spelling (Route.name (fst (Route.analyzeInstagramAccount world h)))
  = NameSpec.spelling h.
Proof.
  intros Hw.
  destruct (analyze_generated world h) as (_ & _ & _ & _ & _ & _ & Hn).
  rewrite Hn, Hw. apply nameVariants_spelling.
  apply at_index_In. rewrite rem_is_mod by (try apply hash_of_nonneg; lia).
  apply (Z.mod_pos_bound (Route.hash_of h) 4). lia.
Qed.

Lemma generated_name_spells_handle_witness :
  Route.enrichment Route.FetchFailed = None
  /\ Route.name (fst (Route.analyzeInstagramAccount Route.FetchFailed "a.b_c"))
     = "A.b_ C"
  /\ NameSpec.spelling
       (Route.name (fst (Route.analyzeInstagramAccount Route.FetchFailed "a.b_c")))
     = NameSpec.spelling "a.b_c".
Proof.
  split; [reflexivity|]. split; [reflexivity|].
  exact (generated_name_spells_handle Route.FetchFailed "a.b_c" eq_refl).
Defined.

(** X17.  The fourth transform splits the handle after its fourth
    character; a handle of four characters or fewer has nothing after the
    split, and its name is the capitalized handle followed by a space. *)
Theorem short_handle_name_ends_in_space (world : Route.page) (h : string) :
  Route.enrichment world = None ->
  (String.length h <= 4)%nat ->
  Route.hash_of h mod 4 = 3 ->
  Route.name (fst (Route.analyzeInstagramAccount world h))
  = (Route.capitalize h ++ " ")%string.
Proof.
  intros Hw Hlen Hmod.
  destruct (analyze_generated world h) as (_ & _ & _ & _ & _ & _ & Hn).
  rewrite Hn, Hw, rem_is_mod, Hmod by (try apply hash_of_nonneg; lia).
  clear Hn Hw Hmod. unfold Route.at_index, Route.nameVariants. simpl nth.
  destruct h as [|a [|b [|c [|d [|e rest]]]]]; try reflexivity.
  all: simpl in Hlen; try lia.
Qed.

Lemma short_handle_name_ends_in_space_witness :
  Route.enrichment Route.FetchFailed = None
  /\ (String.length "nasa" <= 4)%nat
  /\ Route.hash_of "nasa" mod 4 = 3
  /\ Route.name (fst (Route.analyzeInstagramAccount Route.FetchFailed "nasa")) = "Nasa ".
Proof.
  assert (Hl : (String.length "nasa" <= 4)%nat) by (simpl; lia).
  split; [reflexivity|]. split; [exact Hl|]. split; [reflexivity|].
  exact (short_handle_name_ends_in_space Route.FetchFailed "nasa" eq_refl Hl eq_refl).
Defined.

(** ** A stored handle at the server *)

Lemma replace_at_length (s : string) :
  In "@"%char (list_ascii_of_string s) ->
  S (String.length (Js.replace_at s)) = String.length s.
Proof.
  induction s as [|c s IH]; simpl; [contradiction|].
  intros H. destruct (Ascii.eqb_spec c "@") as [->|Hc]; [reflexivity|].
  simpl. rewrite IH; [reflexivity|]. destruct H as [H|H]; [congruence | exact H].
Qed.

Lemma trimStart_length (s : string) :
  (String.length (Js.trimStart s) <= String.length s)%nat.
Proof.
  induction s as [|c s IH]; simpl; [lia|].
  destruct (Js.is_space c); simpl; lia.
Qed.

Lemma trimEnd_length (s : string) :
  (String.length (Js.trimEnd s) <= String.length s)%nat.
Proof.
  induction s as [|c s IH]; simpl; [lia|].
  destruct (Js.trimEnd s); [destruct (Js.is_space c)|]; simpl in *; lia.
Qed.

(** X18.  The server cleans again what the page has stored.  It leaves the
    stored handle as it is exactly when no [@] is left in it; otherwise it
    removes one more, and the handle it validates and returns is shorter
    than the one in the input slot. *)
Theorem server_cleaning_of_stored_handle (value : string) :
  let stored := Route.cleanHandle value in
  (Route.cleanHandle stored = stored
     <-> ~ In "@"%char (list_ascii_of_string stored))
  /\ (In "@"%char (list_ascii_of_string stored) ->
      (String.length (Route.cleanHandle stored) < String.length stored)%nat).
Proof.
  cbv zeta. set (stored := Route.cleanHandle value).
  assert (Hshort : In "@"%char (list_ascii_of_string stored) ->
            (String.length (Route.cleanHandle stored) < String.length stored)%nat).
  { intros Hin. unfold Route.cleanHandle at 1, Js.trim.
    pose proof (replace_at_length stored Hin).
    pose proof (trimStart_length (Js.replace_at stored)).
    pose proof (trimEnd_length (Js.trimStart (Js.replace_at stored))). lia. }
  split; [|exact Hshort]. split.
  - intros E Hin. specialize (Hshort Hin). rewrite E in Hshort. lia.
  - intros Hno. unfold Route.cleanHandle at 1.
    rewrite replace_at_none by exact Hno. apply trim_idempotent.
Qed.

(** ** The Analyze button *)

Lemma no_valid_handles (hs : list string) :
  List.filter (fun h => negb (Js.trim h =? "")%string) hs = []
  <-> forallb (fun h => (Js.trim h =? "")%string) hs = true.
Proof.
  induction hs as [|h hs IH]; simpl; [tauto|].
  destruct (Js.trim h =? "")%string; simpl; [exact IH|].
  split; discriminate.
Qed.

(** X19.  The Analyze button is enabled only when a run would do something:
    then no run is in flight and some handle is not blank.  Started while
    every handle is blank (the Enter key is not disabled), the handler
    returns the state unchanged. *)
Theorem analyze_button_and_blank_runs (net : nat -> string -> Page.outcome)
  (st : Page.state) :
  (Page.analyzeDisabled st = false ->
     Page.loading st = false /\ Page.validHandlesOf st <> [])
  /\ (forallb (fun h => (Js.trim h =? "")%string) (Page.handles st) = true ->
      Page.analyzeDisabled st = true /\ Page.analyzeAccounts net st = st).
Proof.
  unfold Page.analyzeDisabled. split.
  - intros H. apply orb_false_elim in H as [Hl Hb]. split; [exact Hl|].
    intros Hnil. apply no_valid_handles in Hnil. congruence.
  - intros Hb. rewrite Hb, orb_true_r. split; [reflexivity|].
    apply no_valid_handles in Hb. unfold Page.analyzeAccounts, Page.validHandlesOf.
    now rewrite Hb.
Qed.
